(** * Local-first todo application: optimistic store, sync queue, sync service

    A shallow embedding of the TypeScript sources

    - [src/shared/stores/index.ts]   (the zustand/immer todo store),
    - the zustand sync store         ([useSyncStore]),
    - [src/shared/services/sync.ts]  ([SyncStorageService] and [SyncService]),
    - [src/shared/services/network.ts] ([NetworkService]),

    followed by the properties established about them.  JavaScript numbers
    that only ever hold counters or millisecond timestamps are integers [Z];
    an optional field ([x?: T], [T | null], [T | undefined]) is an [option];
    arrays are lists; the MMKV key/value store is a finite map from keys to
    the stored strings. *)

From Stdlib Require Import Ascii ZArith Lia.
From stdpp Require Import base option list strings gmap countable.

Local Open Scope Z_scope.

(* ===================================================================== *)
(** * The todo store ([src/shared/stores/index.ts]) *)
(* ===================================================================== *)

Module TodoStore.

(** [priority: 'low' | 'medium' | 'high'] *)
Inductive Priority := low | medium | high.

(** [interface OptimisticTodo extends Todo]; the record fields carry the
    prefix [t_] because [id] and [completed] are used by several records.
    [completed] is declared [boolean], but an update typed [Partial<Todo>]
    may carry the key with the value [undefined], which the spread then
    writes into the entry: the field is [None] in that case. *)
Record OptimisticTodo := mkTodo {
  t_id : string;
  t_user_id : string;
  t_title : string;
  t_description : option string;
  t_completed : option bool;
  t_priority : Priority;
  t_due_date : option Z;
  t_created_at : Z;
  t_updated_at : Z;
  t_synced : bool;
  _isOptimistic : option bool;
  _originalId : option string;
}.

(** [Partial<Todo>]: a field is [None] when the key is absent and
    [Some v] when it is present.  For [completed], the one value the
    update actions inspect, and for the optional [description] and
    [due_date], the value of a present key can be [undefined]
    ([Some None]). *)
Record TodoUpdates := mkUpdates {
  u_id : option string;
  u_user_id : option string;
  u_title : option string;
  u_description : option (option string);
  u_completed : option (option bool);
  u_priority : option Priority;
  u_due_date : option (option Z);
  u_created_at : option Z;
  u_updated_at : option Z;
  u_synced : option bool;
}.

(** [Omit<Todo, 'id' | 'created_at' | 'updated_at' | 'synced'>] *)
Record TodoData := mkData {
  d_user_id : string;
  d_title : string;
  d_description : option string;
  d_completed : bool;
  d_priority : Priority;
  d_due_date : option Z;
}.

Record TodoFilters := mkFilters {
  f_completed : option bool;
  f_priority : option Priority;
  f_user_id : option string;
  f_search : option string;
  f_due_date_from : option Z;
  f_due_date_to : option Z;
  f_limit : Z;
  f_offset : Z;
}.

Record Stats := mkStats {
  total : Z;
  completed : Z;
  pending : Z;
  overdue : Z;
}.

Record TodoState := mkState {
  todos : list OptimisticTodo;
  filters : TodoFilters;
  isLoading : bool;
  isCreating : bool;
  isUpdating : bool;
  isDeleting : bool;
  error : option string;
  stats : Stats;
}.

Definition defaultFilters : TodoFilters :=
  {| f_completed := None; f_priority := None; f_user_id := None;
     f_search := None; f_due_date_from := None; f_due_date_to := None;
     f_limit := 50; f_offset := 0 |}.

Definition initialState : TodoState :=
  {| todos := []; filters := defaultFilters;
     isLoading := false; isCreating := false; isUpdating := false;
     isDeleting := false; error := None;
     stats := {| total := 0; completed := 0; pending := 0; overdue := 0 |} |}.

(** ** Record updates *)

Definition set_todos (f : list OptimisticTodo → list OptimisticTodo)
    (s : TodoState) : TodoState :=
  {| todos := f (todos s); filters := filters s; isLoading := isLoading s;
     isCreating := isCreating s; isUpdating := isUpdating s;
     isDeleting := isDeleting s; error := error s; stats := stats s |}.

Definition set_stats (f : Stats → Stats) (s : TodoState) : TodoState :=
  {| todos := todos s; filters := filters s; isLoading := isLoading s;
     isCreating := isCreating s; isUpdating := isUpdating s;
     isDeleting := isDeleting s; error := error s; stats := f (stats s) |}.

Definition add_total (d : Z) (st : Stats) : Stats :=
  {| total := total st + d; completed := completed st;
     pending := pending st; overdue := overdue st |}.

Definition add_completed (d : Z) (st : Stats) : Stats :=
  {| total := total st; completed := completed st + d;
     pending := pending st; overdue := overdue st |}.

Definition add_pending (d : Z) (st : Stats) : Stats :=
  {| total := total st; completed := completed st;
     pending := pending st + d; overdue := overdue st |}.

Definition add_overdue (d : Z) (st : Stats) : Stats :=
  {| total := total st; completed := completed st;
     pending := pending st; overdue := overdue st + d |}.

(** [{ ...todo, ...updates }]: every key present in [updates] overwrites
    the entry's value, also when its value is [undefined]. *)
Definition merge (t : OptimisticTodo) (u : TodoUpdates) : OptimisticTodo :=
  {| t_id := default (t_id t) (u_id u);
     t_user_id := default (t_user_id t) (u_user_id u);
     t_title := default (t_title t) (u_title u);
     t_description := default (t_description t) (u_description u);
     t_completed := default (t_completed t) (u_completed u);
     t_priority := default (t_priority t) (u_priority u);
     t_due_date := default (t_due_date t) (u_due_date u);
     t_created_at := default (t_created_at t) (u_created_at u);
     t_updated_at := default (t_updated_at t) (u_updated_at u);
     t_synced := default (t_synced t) (u_synced u);
     _isOptimistic := _isOptimistic t;
     _originalId := _originalId t |}.

(** [{ ...todo, ...updates, _isOptimistic: true, _originalId: todo._originalId || todo.id }];
    the empty string is falsy for [||]. *)
Definition merge_optimistic (t : OptimisticTodo) (u : TodoUpdates) : OptimisticTodo :=
  let m := merge t u in
  {| t_id := t_id m; t_user_id := t_user_id m; t_title := t_title m;
     t_description := t_description m; t_completed := t_completed m;
     t_priority := t_priority m; t_due_date := t_due_date m;
     t_created_at := t_created_at m; t_updated_at := t_updated_at m;
     t_synced := t_synced m;
     _isOptimistic := Some true;
     _originalId :=
       Some (match _originalId t with
             | Some o => if decide (o = EmptyString) then t_id t else o
             | None => t_id t
             end) |}.

(** [state.todos.findIndex(t => t.id === id)]; [None] is the source's [-1]. *)
Definition findIndex (i : string) (l : list OptimisticTodo) : option nat :=
  fst <$> list_find (λ t, t_id t = i) l.

(** [todo.completed] used as a condition: [undefined] is falsy. *)
Definition is_completed (t : OptimisticTodo) : bool := default false (t_completed t).

(** The shared tail of [updateTodo] and [optimisticUpdate]: the stats move
    only when [updates.completed !== undefined] (the key is present with a
    boolean) and the value differs from the old one. *)
Definition adjust_completed (u : TodoUpdates) (oldCompleted : option bool)
    (st : Stats) : Stats :=
  match u_completed u with
  | Some (Some c) =>
      if bool_decide (Some c ≠ oldCompleted) then
        if c then add_pending (-1) (add_completed 1 st)
        else add_pending 1 (add_completed (-1) st)
      else st
  | Some None | None => st
  end.

(** [stats.total -= 1] and the matching completed/pending counter. *)
Definition forget (t : OptimisticTodo) (st : Stats) : Stats :=
  let st := add_total (-1) st in
  if is_completed t then add_completed (-1) st else add_pending (-1) st.

(** [stats.total += 1] and the matching completed/pending counter. *)
Definition account (t : OptimisticTodo) (st : Stats) : Stats :=
  let st := add_total 1 st in
  if is_completed t then add_completed 1 st else add_pending 1 st.

(** ** Helper [calculateStats] (lines 306-327) *)

(** [todo.due_date && todo.due_date < now]: a due date of [0] is falsy. *)
Definition is_overdue (now : Z) (t : OptimisticTodo) : bool :=
  match t_due_date t with
  | Some d => negb (d =? 0) && (d <? now)
  | None => false
  end.

Definition calculateStats_step (now : Z) (st : Stats) (t : OptimisticTodo) : Stats :=
  if is_completed t then add_completed 1 st
  else
    let st := add_pending 1 st in
    if is_overdue now t then add_overdue 1 st else st.

Definition calculateStats (now : Z) (l : list OptimisticTodo) : Stats :=
  foldl (calculateStats_step now)
        {| total := Z.of_nat (length l); completed := 0; pending := 0; overdue := 0 |}
        l.

(** ** Store actions *)

Definition setTodos (now : Z) (l : list OptimisticTodo) (s : TodoState) : TodoState :=
  set_stats (λ _, calculateStats now l) (set_todos (λ _, l) s).

Definition addTodo (t : OptimisticTodo) (s : TodoState) : TodoState :=
  set_stats (account t) (set_todos (cons t) s).

Definition updateTodo (i : string) (u : TodoUpdates) (s : TodoState) : TodoState :=
  match findIndex i (todos s) with
  | Some index =>
      match todos s !! index with
      | Some old =>
          set_stats (adjust_completed u (t_completed old))
            (set_todos (λ l, <[index := merge old u]> l) s)
      | None => s
      end
  | None => s
  end.

Definition deleteTodo (i : string) (s : TodoState) : TodoState :=
  match findIndex i (todos s) with
  | Some index =>
      match todos s !! index with
      | Some todo => set_stats (forget todo) (set_todos (delete index) s)
      | None => s
      end
  | None => s
  end.

(** [optimisticAdd]: [tempId] is the freshly generated
    [`temp_${Date.now()}_${Math.random().toString(36).substr(2, 9)}`]; the
    two later clock readings fill [created_at] and [updated_at].  The action
    returns the temp id together with the new state. *)
Definition optimisticTodo (tempId : string) (d : TodoData) (t1 t2 : Z) : OptimisticTodo :=
  {| t_id := tempId; t_user_id := d_user_id d; t_title := d_title d;
     t_description := d_description d; t_completed := Some (d_completed d);
     t_priority := d_priority d; t_due_date := d_due_date d;
     t_created_at := t1; t_updated_at := t2; t_synced := false;
     _isOptimistic := Some true; _originalId := None |}.

Definition optimisticAdd (tempId : string) (t1 t2 : Z) (d : TodoData)
    (s : TodoState) : string * TodoState :=
  let t := optimisticTodo tempId d t1 t2 in
  (tempId, set_stats (account t) (set_todos (cons t) s)).

Definition optimisticUpdate (i : string) (u : TodoUpdates) (s : TodoState) : TodoState :=
  match findIndex i (todos s) with
  | Some index =>
      match todos s !! index with
      | Some old =>
          set_stats (adjust_completed u (t_completed old))
            (set_todos (λ l, <[index := merge_optimistic old u]> l) s)
      | None => s
      end
  | None => s
  end.

Definition optimisticDelete (i : string) (s : TodoState) : TodoState :=
  match findIndex i (todos s) with
  | Some index =>
      match todos s !! index with
      | Some todo => set_stats (forget todo) (set_todos (delete index) s)
      | None => s
      end
  | None => s
  end.

Definition revertOptimistic (tempId : string) (s : TodoState) : TodoState :=
  match findIndex tempId (todos s) with
  | Some index =>
      match todos s !! index with
      | Some todo => set_stats (forget todo) (set_todos (delete index) s)
      | None => s
      end
  | None => s
  end.

Definition confirmOptimistic (tempId : string) (realTodo : OptimisticTodo)
    (s : TodoState) : TodoState :=
  match findIndex tempId (todos s) with
  | Some index => set_todos (λ l, <[index := realTodo]> l) s
  | None => s
  end.

Definition updateStats (now : Z) (s : TodoState) : TodoState :=
  set_stats (λ _, calculateStats now (todos s)) s.

(** [getTodoById]: [get().todos.find(t => t.id === id)] *)
Definition getTodoById (i : string) (s : TodoState) : option OptimisticTodo :=
  snd <$> list_find (λ t, t_id t = i) (todos s).

Definition reset (s : TodoState) : TodoState := initialState.

#[global] Instance Priority_eq_dec : EqDecision Priority.
Proof. solve_decision. Defined.

(** ** Helper [filterTodos] (lines 329-379) *)

(** [l.slice(start)] and [l.slice(0, end)] for integer arguments: a
    negative index counts from the end of the array. *)
Definition slice_from {A} (start : Z) (l : list A) : list A :=
  drop (Z.to_nat (if start <? 0 then Z.max (Z.of_nat (length l) + start) 0 else start)) l.

Definition slice_upto {A} (end_ : Z) (l : list A) : list A :=
  take (Z.to_nat (if end_ <? 0 then Z.max (Z.of_nat (length l) + end_) 0 else end_)) l.

(** A string or a number used as a condition: the empty string and [0]
    are falsy. *)
Definition nonempty (s : string) : bool := negb (bool_decide (s = EmptyString)).
Definition nonzero (n : Z) : bool := negb (n =? 0).

Section FilterTodos.
(** [String.prototype.toLowerCase] and [String.prototype.includes]
    ([includes s sub] is [s.includes(sub)]). *)
Variable toLowerCase : string → string.
Variable includes : string → string → bool.

(** The test of the text-search filter. *)
Definition search_hit (searchLower : string) (todo : OptimisticTodo) : bool :=
  includes (toLowerCase (t_title todo)) searchLower
  || match t_description todo with
     | Some d => nonempty d && includes (toLowerCase d) searchLower
     | None => false
     end.

(** [todo.due_date && todo.due_date >= from] and its mirror. *)
Definition due_from (from : Z) (todo : OptimisticTodo) : bool :=
  match t_due_date todo with
  | Some d => nonzero d && (from <=? d)
  | None => false
  end.

Definition due_to (to : Z) (todo : OptimisticTodo) : bool :=
  match t_due_date todo with
  | Some d => nonzero d && (d <=? to)
  | None => false
  end.

Definition filterTodos (todos : list OptimisticTodo) (filters : TodoFilters)
    : list OptimisticTodo :=
  let filtered := todos in
  let filtered :=
    match f_completed filters with
    | Some c => filter (λ todo, t_completed todo = Some c) filtered
    | None => filtered
    end in
  let filtered :=
    match f_priority filters with
    | Some p => filter (λ todo, t_priority todo = p) filtered
    | None => filtered
    end in
  let filtered :=
    match f_user_id filters with
    | Some u =>
        if nonempty u then filter (λ todo, t_user_id todo = u) filtered else filtered
    | None => filtered
    end in
  let filtered :=
    match f_search filters with
    | Some q =>
        if nonempty q
        then filter (λ todo, search_hit (toLowerCase q) todo = true) filtered
        else filtered
    | None => filtered
    end in
  let filtered :=
    match f_due_date_from filters with
    | Some from =>
        if nonzero from then filter (λ todo, due_from from todo = true) filtered
        else filtered
    | None => filtered
    end in
  let filtered :=
    match f_due_date_to filters with
    | Some to =>
        if nonzero to then filter (λ todo, due_to to todo = true) filtered
        else filtered
    | None => filtered
    end in
  let filtered :=
    if nonzero (f_offset filters) then slice_from (f_offset filters) filtered
    else filtered in
  let filtered :=
    if nonzero (f_limit filters) then slice_upto (f_limit filters) filtered
    else filtered in
  filtered.

Definition getFilteredTodos (s : TodoState) : list OptimisticTodo :=
  filterTodos (todos s) (filters s).

End FilterTodos.

End TodoStore.

(* ===================================================================== *)
(** * Sync entities ([types/entities/database]) *)
(* ===================================================================== *)

Module Entities.

(** [type: 'CREATE' | 'UPDATE' | 'DELETE'] *)
Inductive ActionType := CREATE | UPDATE | DELETE.

(** [data: any].  The sync code reads [data.id] and otherwise only
    serialises the payload, so the payload is its optional [id] together
    with the remaining fields kept as opaque text. *)
Record Payload := mkPayload {
  data_id : option string;
  data_fields : string;
}.

(** [interface SyncAction]; [retries?: number] is optional. *)
Record SyncAction := mkAction {
  a_id : string;
  a_type : ActionType;
  a_table : string;
  a_data : Payload;
  a_timestamp : Z;
  a_retries : option Z;
}.

(** [interface SyncStatus] *)
Record SyncStatus := mkStatus {
  last_sync_time : option Z;
  pending_actions : Z;
  is_syncing : bool;
  last_error : option string;
}.

(** [action.retries || 0] *)
Definition retries_or_0 (a : SyncAction) : Z := default 0 (a_retries a).

Definition set_retries (r : Z) (a : SyncAction) : SyncAction :=
  {| a_id := a_id a; a_type := a_type a; a_table := a_table a;
     a_data := a_data a; a_timestamp := a_timestamp a; a_retries := Some r |}.

#[global] Instance ActionType_eq_dec : EqDecision ActionType.
Proof. solve_decision. Defined.
#[global] Instance Payload_eq_dec : EqDecision Payload.
Proof. solve_decision. Defined.
#[global] Instance SyncAction_eq_dec : EqDecision SyncAction.
Proof. solve_decision. Defined.

End Entities.

(* ===================================================================== *)
(** * The sync store ([useSyncStore]) *)
(* ===================================================================== *)

Module SyncStore.
Import Entities.

Record SyncState := mkSync {
  status : SyncStatus;
  queue : list SyncAction;
  autoSyncEnabled : bool;
  syncInterval : Z;
  totalSynced : Z;
  totalErrors : Z;
  lastSyncDuration : Z;
}.

Definition defaultStatus : SyncStatus :=
  {| last_sync_time := None; pending_actions := 0;
     is_syncing := false; last_error := None |}.

(** The state the module is created with; the store uses no [persist]
    middleware, so this is also the state after a process restart. *)
Definition initialState : SyncState :=
  {| status := defaultStatus; queue := []; autoSyncEnabled := true;
     syncInterval := 5 * 60 * 1000; totalSynced := 0; totalErrors := 0;
     lastSyncDuration := 0 |}.

Definition with_status (f : SyncStatus → SyncStatus) (s : SyncState) : SyncState :=
  {| status := f (status s); queue := queue s;
     autoSyncEnabled := autoSyncEnabled s; syncInterval := syncInterval s;
     totalSynced := totalSynced s; totalErrors := totalErrors s;
     lastSyncDuration := lastSyncDuration s |}.

Definition with_queue (q : list SyncAction) (s : SyncState) : SyncState :=
  {| status := status s; queue := q;
     autoSyncEnabled := autoSyncEnabled s; syncInterval := syncInterval s;
     totalSynced := totalSynced s; totalErrors := totalErrors s;
     lastSyncDuration := lastSyncDuration s |}.

Definition setLastSyncTime (time : Z) : SyncState → SyncState :=
  with_status (λ st, {| last_sync_time := Some time;
                        pending_actions := pending_actions st;
                        is_syncing := is_syncing st; last_error := last_error st |}).

Definition setSyncing (isSyncing : bool) : SyncState → SyncState :=
  with_status (λ st, {| last_sync_time := last_sync_time st;
                        pending_actions := pending_actions st;
                        is_syncing := isSyncing; last_error := last_error st |}).

Definition setError (error : option string) : SyncState → SyncState :=
  with_status (λ st, {| last_sync_time := last_sync_time st;
                        pending_actions := pending_actions st;
                        is_syncing := is_syncing st; last_error := error |}).

Definition set_pending (n : Z) (st : SyncStatus) : SyncStatus :=
  {| last_sync_time := last_sync_time st; pending_actions := n;
     is_syncing := is_syncing st; last_error := last_error st |}.

(** [Omit<SyncAction, 'id' | 'timestamp'>] *)
Record ActionData := mkActionData {
  ad_type : ActionType;
  ad_table : string;
  ad_data : Payload;
  ad_retries : option Z;
}.

(** [addToQueue]: [newId] is the generated
    [Math.random().toString(36).substr(2, 9)] and [now] is [Date.now()].
    Returns the id together with the new state. *)
Definition addToQueue (newId : string) (now : Z) (actionData : ActionData)
    (s : SyncState) : string * SyncState :=
  let action :=
    {| a_id := newId; a_type := ad_type actionData; a_table := ad_table actionData;
       a_data := ad_data actionData; a_timestamp := now; a_retries := Some 0 |} in
  (a_id action,
   with_status (set_pending (Z.of_nat (length (queue s)) + 1))
     (with_queue (queue s ++ [action]) s)).

Definition removeFromQueue (actionId : string) (s : SyncState) : SyncState :=
  let newQueue := filter (λ action, a_id action ≠ actionId) (queue s) in
  with_status (set_pending (Z.of_nat (length newQueue))) (with_queue newQueue s).

Definition clearQueue (s : SyncState) : SyncState :=
  with_status (set_pending 0) (with_queue [] s).

Definition incrementRetries (actionId : string) (s : SyncState) : SyncState :=
  with_queue
    (map (λ action,
            if decide (a_id action = actionId)
            then set_retries (retries_or_0 action + 1) action
            else action)
         (queue s))
    s.

Definition getPendingActions (s : SyncState) : list SyncAction :=
  filter (λ action, retries_or_0 action < 3) (queue s).

Definition getFailedActions (s : SyncState) : list SyncAction :=
  filter (λ action, retries_or_0 action >= 3) (queue s).

(** Process restart: module state is rebuilt from its initial value. *)
Definition restart (s : SyncState) : SyncState := initialState.

(** The result of [getQueueStats]. *)
Record QueueStats := mkQueueStats {
  qs_total : Z;
  qs_pending : Z;
  qs_failed : Z;
  qs_retrying : Z;
}.

Definition getQueueStats (s : SyncState) : QueueStats :=
  let queue := queue s in
  let pending := length (filter (λ action, retries_or_0 action = 0) queue) in
  let failed := length (filter (λ action, retries_or_0 action >= 3) queue) in
  let retrying :=
    length (filter (λ action,
                      let retries := retries_or_0 action in
                      retries > 0 ∧ retries < 3) queue) in
  {| qs_total := Z.of_nat (length queue); qs_pending := Z.of_nat pending;
     qs_failed := Z.of_nat failed; qs_retrying := Z.of_nat retrying |}.

(** The queue actions of the store, with the values the environment
    supplies to [addToQueue]. *)
Inductive QueueOp :=
  | Enqueue (newId : string) (now : Z) (actionData : ActionData)
  | Remove (actionId : string)
  | Clear
  | Retry (actionId : string).

Definition apply_queue (op : QueueOp) (s : SyncState) : SyncState :=
  match op with
  | Enqueue newId now actionData => snd (addToQueue newId now actionData s)
  | Remove actionId => removeFromQueue actionId s
  | Clear => clearQueue s
  | Retry actionId => incrementRetries actionId s
  end.

Definition run_queue (ops : list QueueOp) (s : SyncState) : SyncState :=
  foldl (λ s op, apply_queue op s) s ops.

(** [pending_actions] shows the length of the queue. *)
Definition pending_mirrors_queue (s : SyncState) : Prop :=
  pending_actions (status s) = Z.of_nat (length (queue s)).

(** No queued action has a negative retry count. *)
Definition retries_nonneg (s : SyncState) : Prop :=
  Forall (λ a, 0 ≤ retries_or_0 a) (queue s).

End SyncStore.

(* ===================================================================== *)
(** * The sync service ([src/shared/services/sync.ts]) *)
(* ===================================================================== *)

Module SyncService.
Import Entities.

(** ** External collaborators *)

(** [networkService.currentState] *)
Record NetworkState := mkNetwork {
  isConnected : bool;
  isInternetReachable : option bool;
}.

(** Rows of the SQLite tables as [dbService] returns them. *)
Record User := mkUser {
  user_id : string;
  user_name : string;
  user_email : string;
  user_createdAt : Z;
  user_updatedAt : Z;
  user_synced : bool;
}.

Record Todo := mkTodo {
  todo_id : string;
  todo_title : string;
  todo_description : option string;
  todo_completed : bool;
  todo_createdAt : Z;
  todo_updatedAt : Z;
  todo_synced : bool;
}.

Record Database := mkDb {
  users : list User;
  todos : list Todo;
}.

Inductive Table := users_table | todos_table.

Inductive Method := POST | PUT | DELETE_.

Inductive Body :=
  | NoBody
  | DataBody (data : Payload)
  | UserBody (user : User)
  | TodoBody (todo : Todo).

(** One [fetch(url, { method, body })] call. *)
Record Request := mkRequest {
  method : Method;
  url : string;
  body : Body;
}.

(** A [fetch] promise resolves to a response ([response.ok]) or rejects. *)
Inductive FetchResult := Response (ok : bool) | NetworkFailure.

(** What [JSON.parse] of the stored ['app_config'] text can be: the source
    types it [any].  Assigning a property to [null] or to a primitive
    raises a [TypeError] in module (strict) code; assigning it to an array
    succeeds, but [JSON.stringify] prints the elements of an array only. *)
Record AppConfig := mkConfig {
  lastSyncTime : option Z;
  other_keys : string;                   (* any further keys, kept as text *)
}.

Inductive ConfigValue :=
  | ConfigObject (c : AppConfig)
  | ConfigArray (elements : string)      (* the elements, kept as text *)
  | ConfigPrimitive.

Inductive Error :=
  | SyntaxError
  | TypeError
  | FetchRejected
  | DatabaseNotInitialised.

(** The text written to the console by [sync.ts] and [markAsSynced]. *)
Inductive LogEntry :=
  | LogAlreadySyncing
  | LogNoInternet
  | LogSyncStart
  | LogSyncDone
  | ErrorDuringSync (e : Error)
  | WarnActionRemoved (action : SyncAction)
  | ErrorProcessingQueueEntry (e : Error)
  | ErrorProcessingAction (e : Error)
  | ErrorUploadingUnsynced (e : Error)
  | ErrorUploadingUser (e : Error)
  | ErrorUploadingTodo (e : Error)
  | ErrorCreating (e : Error)
  | ErrorUpdating (e : Error)
  | ErrorDeleting (e : Error)
  | LogMarkedSynced (table : Table) (id : string)
  | LogActionAdded (action : SyncAction).

(** The runtime the service runs on: the remote API behind [fetch] (a
    state machine answering requests) and [JSON.stringify] / [JSON.parse]
    at the two types the service stores.  [None] from a parser is a thrown
    [SyntaxError].  The queue text is read at the type the source declares
    for it ([SyncAction[]]). *)
Class Platform := {
  Remote : Type;
  fetch : Request → Remote → FetchResult * Remote;
  JSON_stringify_queue : list SyncAction → string;
  JSON_parse_queue : string → option (list SyncAction);
  JSON_stringify_config : ConfigValue → string;
  JSON_parse_config : string → option ConfigValue;
}.

(** [JSON.stringify] never yields the empty text, and parsing what it
    printed gives the value back. *)
Definition JSON_queue_faithful `{Platform} : Prop :=
  ∀ q, JSON_stringify_queue q ≠ EmptyString ∧ JSON_parse_queue (JSON_stringify_queue q) = Some q.

(** The outcome of running a piece of service code. *)
Inductive Result (A : Type) := Ok (a : A) | Throw (e : Error).
Arguments Ok {A} a.
Arguments Throw {A} e.

Section Service.
Context `{Platform}.

(** ** Program state and the monad of service code

    Service code runs in a state-and-exception monad over the [World].  A
    call of an [async] method is run to completion: other tasks are not
    interleaved at its [await] points, so a pass that is in flight when a
    call arrives shows only through the [isSyncing] flag it has set. *)

Record World := mkWorld {
  storage : gmap string string;          (* the MMKV instance 'sync-storage' *)
  isSyncing : bool;                      (* [SyncService.isSyncing] *)
  network : NetworkState;                (* [networkService] *)
  remote : Remote;                       (* the API server *)
  requests : list Request;               (* [fetch] calls issued, oldest first *)
  db : option Database;                  (* [dbService.db], [null] before [init] *)
  clock : Z;                             (* [Date.now()] *)
  console : list LogEntry;               (* console output, oldest first *)
  todoStore : TodoStore.TodoState;       (* [useTodoStore] *)
  syncStore : SyncStore.SyncState;       (* [useSyncStore] *)
}.

Definition M (A : Type) : Type := World → Result A * World.

#[export] Instance M_ret : MRet M := λ A a w, (Ok a, w).

#[export] Instance M_bind : MBind M := λ A B f m w,
  match m w with
  | (Ok a, w') => f a w'
  | (Throw e, w') => (Throw e, w')
  end.

Definition throw {A} (e : Error) : M A := λ w, (Throw e, w).

(** [try { m } catch (e) { h e }] *)
Definition try_catch {A} (m : M A) (h : Error → M A) : M A := λ w,
  match m w with
  | (Ok a, w') => (Ok a, w')
  | (Throw e, w') => h e w'
  end.

(** [try { m } finally { f }]: [f] runs on every exit of [m]. *)
Definition try_finally {A} (m : M A) (f : M unit) : M A := λ w,
  match m w with
  | (r, w') =>
      match f w' with
      | (Ok _, w'') => (r, w'')
      | (Throw e, w'') => (Throw e, w'')
      end
  end.

(** [for (const x of l) { body x }] *)
Fixpoint for_of {A} (l : list A) (body : A → M unit) : M unit :=
  match l with
  | [] => mret tt
  | x :: l' => body x ;; for_of l' body
  end.

Definition gets {A} (f : World → A) : M A := λ w, (Ok (f w), w).
Definition modify (f : World → World) : M unit := λ w, (Ok tt, f w).

Definition set_storage (st : gmap string string) (w : World) : World :=
  {| storage := st; isSyncing := isSyncing w; network := network w;
     remote := remote w; requests := requests w; db := db w; clock := clock w;
     console := console w; todoStore := todoStore w; syncStore := syncStore w |}.

Definition set_isSyncing (b : bool) (w : World) : World :=
  {| storage := storage w; isSyncing := b; network := network w;
     remote := remote w; requests := requests w; db := db w; clock := clock w;
     console := console w; todoStore := todoStore w; syncStore := syncStore w |}.

Definition set_remote (r : Remote) (rs : list Request) (w : World) : World :=
  {| storage := storage w; isSyncing := isSyncing w; network := network w;
     remote := r; requests := rs; db := db w; clock := clock w;
     console := console w; todoStore := todoStore w; syncStore := syncStore w |}.

Definition set_db (d : option Database) (w : World) : World :=
  {| storage := storage w; isSyncing := isSyncing w; network := network w;
     remote := remote w; requests := requests w; db := d; clock := clock w;
     console := console w; todoStore := todoStore w; syncStore := syncStore w |}.

Definition set_console (c : list LogEntry) (w : World) : World :=
  {| storage := storage w; isSyncing := isSyncing w; network := network w;
     remote := remote w; requests := requests w; db := db w; clock := clock w;
     console := c; todoStore := todoStore w; syncStore := syncStore w |}.

(** [console.log] / [console.warn] / [console.error] *)
Definition console_log (e : LogEntry) : M unit :=
  modify (λ w, set_console (console w ++ [e]) w).

Definition Date_now : M Z := gets clock.

(** [await fetch(url, init)]: the request reaches the remote, which
    answers; a rejected promise is a thrown error. *)
Definition do_fetch (req : Request) : M bool := λ w,
  let '(res, r) := fetch req (remote w) in
  let w' := set_remote r (requests w ++ [req]) w in
  match res with
  | Response ok => (Ok ok, w')
  | NetworkFailure => (Throw FetchRejected, w')
  end.

(** [syncStorage.getString(key)] and [syncStorage.set(key, value)] *)
Definition getString (key : string) : M (option string) :=
  gets (λ w, storage w !! key).

Definition set (key value : string) : M unit :=
  modify (λ w, set_storage (<[key := value]> (storage w)) w).

(** [networkService.hasInternetAccess()] *)
Definition hasInternetAccess : M bool :=
  gets (λ w, bool_decide (isInternetReachable (network w) = Some true)).

(** ** [dbService] (the methods the sync service calls) *)

Definition table_name (t : Table) : string :=
  match t with users_table => "users" | todos_table => "todos" end.

Definition require_db : M Database := λ w,
  match db w with
  | Some d => (Ok d, w)
  | None => (Throw DatabaseNotInitialised, w)
  end.

(** [SELECT * FROM users WHERE synced = 0] *)
Definition getUnsyncedUsers : M (list User) :=
  d ← require_db; mret (filter (λ u, user_synced u = false) (users d)).

Definition getUnsyncedTodos : M (list Todo) :=
  d ← require_db; mret (filter (λ t, todo_synced t = false) (todos d)).

Definition mark_user (id : string) (u : User) : User :=
  if decide (user_id u = id)
  then {| user_id := user_id u; user_name := user_name u; user_email := user_email u;
          user_createdAt := user_createdAt u; user_updatedAt := user_updatedAt u;
          user_synced := true |}
  else u.

Definition mark_todo (id : string) (t : Todo) : Todo :=
  if decide (todo_id t = id)
  then {| todo_id := todo_id t; todo_title := todo_title t;
          todo_description := todo_description t; todo_completed := todo_completed t;
          todo_createdAt := todo_createdAt t; todo_updatedAt := todo_updatedAt t;
          todo_synced := true |}
  else t.

(** [UPDATE ${table} SET synced = 1 WHERE id = ?] *)
Definition markAsSynced (table : Table) (id : string) : M unit :=
  d ← require_db;
  modify (set_db (Some
    match table with
    | users_table => {| users := map (mark_user id) (users d); todos := todos d |}
    | todos_table => {| users := users d; todos := map (mark_todo id) (todos d) |}
    end)) ;;
  console_log (LogMarkedSynced table id).


(** ** [SyncStorageService] (lines 19-57) *)

Definition defaultConfig : ConfigValue :=
  ConfigObject {| lastSyncTime := None; other_keys := EmptyString |}.

Definition JSON_parse_config_or_throw (text : string) : M ConfigValue :=
  match JSON_parse_config text with
  | Some v => mret v
  | None => throw SyntaxError
  end.

Definition JSON_parse_queue_or_throw (text : string) : M (list SyncAction) :=
  match JSON_parse_queue text with
  | Some q => mret q
  | None => throw SyntaxError
  end.

(** [config ? JSON.parse(config) : { lastSyncTime: null }] inside
    [try ... catch]; the empty string is falsy. *)
Definition getAppConfig : M ConfigValue :=
  try_catch
    (config ← getString "app_config";
     match config with
     | Some text =>
         if decide (text = EmptyString) then mret defaultConfig
         else JSON_parse_config_or_throw text
     | None => mret defaultConfig
     end)
    (λ _, mret defaultConfig).

Definition setAppConfig (config : ConfigValue) : M unit :=
  set "app_config" (JSON_stringify_config config).

(** [queue ? JSON.parse(queue) : []] inside [try ... catch]; the parsed
    value is taken at the declared return type [SyncAction[]]. *)
Definition getSyncQueue : M (list SyncAction) :=
  try_catch
    (queue ← getString "sync_queue";
     match queue with
     | Some text =>
         if decide (text = EmptyString) then mret []
         else JSON_parse_queue_or_throw text
     | None => mret []
     end)
    (λ _, mret []).

Definition setSyncQueue (queue : list SyncAction) : M unit :=
  set "sync_queue" (JSON_stringify_queue queue).

(** [SyncStorageService.addToSyncQueue(action)] *)
Definition SyncStorageService_addToSyncQueue (action : SyncAction) : M unit :=
  queue ← getSyncQueue;
  setSyncQueue (queue ++ [action]).

Definition removeFromSyncQueue (actionId : string) : M unit :=
  queue ← getSyncQueue;
  setSyncQueue (filter (λ action, a_id action ≠ actionId) queue).

(** ** [class SyncService] *)

Record SyncOptions := mkOptions {
  forceSync : option bool;
  timeout : option Z;
  retryAttempts : option Z;
}.

Definition noOptions : SyncOptions :=
  {| forceSync := None; timeout := None; retryAttempts := None |}.

Definition API_BASE_URL : string := "http://localhost:8081/api".

(** A value spliced into a template literal; [undefined] prints as text. *)
Definition template (o : option string) : string := default "undefined" o.

Definition uploadUser (user : User) : M bool :=
  try_catch
    (do_fetch {| method := POST; url := API_BASE_URL +:+ "/users";
                 body := UserBody user |})
    (λ e, console_log (ErrorUploadingUser e) ;; mret false).

Definition uploadTodo (todo : Todo) : M bool :=
  try_catch
    (do_fetch {| method := POST; url := API_BASE_URL +:+ "/todos";
                 body := TodoBody todo |})
    (λ e, console_log (ErrorUploadingTodo e) ;; mret false).

Definition createOnServer (table : string) (data : Payload) : M bool :=
  try_catch
    (do_fetch {| method := POST; url := API_BASE_URL +:+ "/" +:+ table;
                 body := DataBody data |})
    (λ e, console_log (ErrorCreating e) ;; mret false).

Definition updateOnServer (table : string) (data : Payload) : M bool :=
  try_catch
    (do_fetch {| method := PUT;
                 url := API_BASE_URL +:+ "/" +:+ table +:+ "/" +:+ template (data_id data);
                 body := DataBody data |})
    (λ e, console_log (ErrorUpdating e) ;; mret false).

Definition deleteOnServer (table : string) (id : option string) : M bool :=
  try_catch
    (do_fetch {| method := DELETE_;
                 url := API_BASE_URL +:+ "/" +:+ table +:+ "/" +:+ template id;
                 body := NoBody |})
    (λ e, console_log (ErrorDeleting e) ;; mret false).

Definition processAction (action : SyncAction) : M bool :=
  try_catch
    (match a_type action with
     | CREATE => createOnServer (a_table action) (a_data action)
     | UPDATE => updateOnServer (a_table action) (a_data action)
     | DELETE => deleteOnServer (a_table action) (data_id (a_data action))
     end)
    (λ e, console_log (ErrorProcessingAction e) ;; mret false).

(** The body of the [for] loop of [processSyncQueue] (lines 138-153).
    [action.retries = (action.retries || 0) + 1] updates the object held in
    the local array that [getSyncQueue] parsed; nothing writes that array
    back to storage. *)
Definition processSyncQueue_entry (action : SyncAction) : M unit :=
  try_catch
    (success ← processAction action;
     if success : bool then
       removeFromSyncQueue (a_id action)
     else
       let action := set_retries (retries_or_0 action + 1) action in
       if bool_decide (retries_or_0 action >= 3) then
         removeFromSyncQueue (a_id action) ;;
         console_log (WarnActionRemoved action)
       else mret tt)
    (λ e, console_log (ErrorProcessingQueueEntry e)).

Definition processSyncQueue : M unit :=
  queue ← getSyncQueue;
  for_of queue processSyncQueue_entry.

(** The bodies of the two [for] loops of [uploadUnsyncedData]. *)
Definition uploadUnsyncedData_user (user : User) : M unit :=
  success ← uploadUser user;
  if success : bool then markAsSynced users_table (user_id user) else mret tt.

Definition uploadUnsyncedData_todo (todo : Todo) : M unit :=
  success ← uploadTodo todo;
  if success : bool then markAsSynced todos_table (todo_id todo) else mret tt.

Definition uploadUnsyncedData : M unit :=
  try_catch
    (unsyncedUsers ← getUnsyncedUsers;
     for_of unsyncedUsers uploadUnsyncedData_user ;;
     unsyncedTodos ← getUnsyncedTodos;
     for_of unsyncedTodos uploadUnsyncedData_todo)
    (λ e, console_log (ErrorUploadingUnsynced e)).

(** [config.lastSyncTime = Date.now()].  On an array the assignment adds
    a property that is not an element: the array that [setAppConfig] then
    prints is the one that was read. *)
Definition assign_lastSyncTime (config : ConfigValue) (now : Z) : M ConfigValue :=
  match config with
  | ConfigObject c =>
      mret (ConfigObject {| lastSyncTime := Some now; other_keys := other_keys c |})
  | ConfigArray elements => mret (ConfigArray elements)
  | ConfigPrimitive => throw TypeError
  end.

(** The [try] block of [syncPendingChanges] (lines 106-124). *)
Definition syncPendingChanges_pass : M bool :=
  console_log LogSyncStart ;;
  processSyncQueue ;;
  uploadUnsyncedData ;;
  config ← getAppConfig;
  now ← Date_now;
  config ← assign_lastSyncTime config now;
  setAppConfig config ;;
  console_log LogSyncDone ;;
  mret true.

Definition syncPendingChanges (options : SyncOptions) : M bool :=
  syncing ← gets isSyncing;
  if syncing && negb (default false (forceSync options)) then
    console_log LogAlreadySyncing ;; mret false
  else
    online ← hasInternetAccess;
    if negb online then
      console_log LogNoInternet ;; mret false
    else
      modify (set_isSyncing true) ;;
      try_finally
        (try_catch syncPendingChanges_pass
           (λ error, console_log (ErrorDuringSync error) ;; mret false))
        (modify (set_isSyncing false)).

Definition isSyncInProgress : M bool := gets isSyncing.

Definition forcSync : M bool :=
  syncPendingChanges {| forceSync := Some true; timeout := None; retryAttempts := None |}.

(** [addToSyncQueue(type, table, data)]: [newId] is the generated
    [Math.random().toString(36).substr(2, 9)]. *)
Definition addToSyncQueue (newId : string) (type : ActionType) (table : string)
    (data : Payload) : M unit :=
  now ← Date_now;
  let action :=
    {| a_id := newId; a_type := type; a_table := table; a_data := data;
       a_timestamp := now; a_retries := Some 0 |} in
  SyncStorageService_addToSyncQueue action ;;
  console_log (LogActionAdded action).

(** A call of an [async] method whose promise is dropped: the caller gets
    no result and no exception. *)
Definition fire_and_forget {A} (m : M A) : M unit := λ w, (Ok tt, snd (m w)).

(** The callback [init] registers with [networkService.subscribe] (lines
    69-74); [networkService] calls it with its current state. *)
Definition on_network_state (networkState : NetworkState) : M unit :=
  if isConnected networkState && default false (isInternetReachable networkState)
  then fire_and_forget (syncPendingChanges noOptions)
  else mret tt.

(** The callback of the five-minute interval of [setupAutoSync] (lines
    86-90). *)
Definition on_interval_tick : M unit :=
  online ← hasInternetAccess;
  syncing ← gets isSyncing;
  if online && negb syncing
  then fire_and_forget (syncPendingChanges noOptions)
  else mret tt.

(** Process restart: what lives on disk or outside the process (MMKV
    storage, the SQLite database, the remote server and its request log)
    is kept, every in-memory object is rebuilt from its initial value. *)
Definition restart (w : World) : World :=
  {| storage := storage w; isSyncing := false;
     network := {| isConnected := false; isInternetReachable := None |};
     remote := remote w; requests := requests w; db := db w;
     clock := clock w; console := [];
     todoStore := TodoStore.initialState; syncStore := SyncStore.initialState |}.

End Service.

End SyncService.

(* ===================================================================== *)
(** * The network service ([src/shared/services/network.ts]) *)
(* ===================================================================== *)

Module NetworkService.

Inductive NetworkConnectionType :=
  wifi | cellular | bluetooth | ethernet | other | unknown | none.

Inductive NetworkQuality := excellent | good | poor | offline.

(** The two keys the service reads from [details], which it types [any]:
    [strength] is absent ([None]), [null] ([Some None]) or a number (a
    percentage); [cellularGeneration] is absent or [null] ([None]) or a
    string. *)
Record Details := mkDetails {
  strength : option (option Z);
  cellularGeneration : option string;
}.

(** What NetInfo reports. *)
Record NetInfoState := mkNetInfo {
  ni_type : string;
  ni_isConnected : option bool;             (* boolean | null *)
  ni_isInternetReachable : option bool;     (* boolean | null *)
  ni_details : option Details;              (* null when there is no connection *)
  ni_isConnectionExpensive : option bool;   (* read through [as any] *)
}.

Record NetworkState := mkState {
  isConnected : bool;
  isInternetReachable : option bool;
  type : NetworkConnectionType;
  quality : NetworkQuality;
  isMetered : option bool;                  (* isMetered?: boolean *)
  details : option Details;
}.

Record NetworkStats := mkStats {
  uptime : Z;
  downtime : Z;
  reconnections : Z;
  lastConnectedAt : option Z;
  lastDisconnectedAt : option Z;
}.

(** The fields of the [NetworkService] instance that its methods read and
    write. *)
Record Service := mkService {
  currentState : NetworkState;
  stats : NetworkStats;
}.

Definition initial : Service :=
  {| currentState :=
       {| isConnected := false; isInternetReachable := None; type := unknown;
          quality := offline; isMetered := None; details := None |};
     stats :=
       {| uptime := 0; downtime := 0; reconnections := 0;
          lastConnectedAt := None; lastDisconnectedAt := None |} |}.

Definition mapConnectionType (type : string) : NetworkConnectionType :=
  if decide (type = "wifi") then wifi
  else if decide (type = "cellular") then cellular
  else if decide (type = "bluetooth") then bluetooth
  else if decide (type = "ethernet") then ethernet
  else if decide (type = "other") then other
  else if decide (type = "none") then none
  else unknown.

(** A string in a condition: [null], [undefined] and the empty string are
    falsy. *)
Definition truthy_string (s : option string) : bool :=
  match s with
  | Some s => bool_decide (s ≠ EmptyString)
  | None => false
  end.

(** A number compared with [>]: [null] counts as 0. *)
Definition to_number (n : option Z) : Z := default 0 n.

Definition calculateQuality (state : NetInfoState) : NetworkQuality :=
  if negb (default false (ni_isConnected state)) then offline
  else
    let details := ni_details state in
    match (if decide (ni_type state = "wifi") then details ≫= strength else None) with
    | Some strength =>
        if 70 <? to_number strength then excellent
        else if 40 <? to_number strength then good
        else poor
    | None =>
        if bool_decide (ni_type state = "cellular")
           && truthy_string (details ≫= cellularGeneration)
        then
          if decide (details ≫= cellularGeneration = Some "5g") then excellent
          else if decide (details ≫= cellularGeneration = Some "4g") then good
          else poor
        else if default false (ni_isInternetReachable state) then good else poor
    end.

Definition updateConnectionStats (now : Z) (wasConnected isConnected : bool)
    (st : NetworkStats) : NetworkStats :=
  if negb wasConnected && isConnected then
    {| uptime := uptime st; downtime := downtime st;
       reconnections := reconnections st + 1;
       lastConnectedAt := Some now; lastDisconnectedAt := lastDisconnectedAt st |}
  else if wasConnected && negb isConnected then
    {| uptime := uptime st; downtime := downtime st;
       reconnections := reconnections st;
       lastConnectedAt := lastConnectedAt st; lastDisconnectedAt := Some now |}
  else st.

(** [updateState(netInfoState)]; [now] is the [Date.now()] read by
    [updateConnectionStats].  The subscribers are then called with the
    new [currentState]. *)
Definition updateState (now : Z) (netInfoState : NetInfoState) (svc : Service)
    : Service :=
  let wasConnected := isConnected (currentState svc) in
  let newState :=
    {| isConnected := default false (ni_isConnected netInfoState);
       isInternetReachable := ni_isInternetReachable netInfoState;
       type := mapConnectionType (ni_type netInfoState);
       quality := calculateQuality netInfoState;
       isMetered := Some (default false (ni_isConnectionExpensive netInfoState));
       details := ni_details netInfoState |} in
  {| currentState := newState;
     stats := updateConnectionStats now wasConnected (isConnected newState)
                (stats svc) |}.

(** The callback of the one-second interval of [startStatsTracking]. *)
Definition stats_tick (svc : Service) : Service :=
  let st := stats svc in
  {| currentState := currentState svc;
     stats :=
       if isConnected (currentState svc) then
         {| uptime := uptime st + 1000; downtime := downtime st;
            reconnections := reconnections st;
            lastConnectedAt := lastConnectedAt st;
            lastDisconnectedAt := lastDisconnectedAt st |}
       else
         {| uptime := uptime st; downtime := downtime st + 1000;
            reconnections := reconnections st;
            lastConnectedAt := lastConnectedAt st;
            lastDisconnectedAt := lastDisconnectedAt st |} |}.

Definition hasInternetAccess (svc : Service) : bool :=
  bool_decide (isInternetReachable (currentState svc) = Some true).

Definition getConnectionQuality (svc : Service) : NetworkQuality :=
  quality (currentState svc).

Definition isMetered_ (svc : Service) : bool :=
  bool_decide (isMetered (currentState svc) = Some true).

#[global] Instance NetworkConnectionType_eq_dec : EqDecision NetworkConnectionType.
Proof. solve_decision. Defined.
#[global] Instance NetworkQuality_eq_dec : EqDecision NetworkQuality.
Proof. solve_decision. Defined.

Definition isOptimalForSync (svc : Service) : bool :=
  hasInternetAccess svc
  && bool_decide (quality (currentState svc) ≠ poor)
  && (bool_decide (type (currentState svc) = wifi) || negb (isMetered_ svc)).

(** The texts [getRecommendations] can return. *)
Inductive Recommendation :=
  | NoConnection          (* 'Sin conexion a internet' *)
  | SlowConnection        (* 'Conexion lenta - considera esperar a mejor senal' *)
  | MobileData            (* 'Usando datos moviles - sincronizacion limitada' *)
  | ExcellentWifi         (* 'Conexion WiFi excelente - ideal para sincronizacion' *)
  | StableConnection.     (* 'Conexion estable' *)

Definition getRecommendations (svc : Service) : list Recommendation :=
  let state := currentState svc in
  if negb (isConnected state) then [NoConnection]
  else
    let recommendations :=
      (if decide (quality state = poor) then [SlowConnection] else [])
      ++ (if isMetered_ svc && bool_decide (type state = cellular)
          then [MobileData] else [])
      ++ (if bool_decide (type state = wifi) && bool_decide (quality state = excellent)
          then [ExcellentWifi] else []) in
    if decide (length recommendations = 0%nat)
    then recommendations ++ [StableConnection]
    else recommendations.

(** What the sync service reads of the state. *)
Definition view (state : NetworkState) : SyncService.NetworkState :=
  {| SyncService.isConnected := isConnected state;
     SyncService.isInternetReachable := isInternetReachable state |}.

(** What happens to the service over time: NetInfo reports a state, or
    the one-second interval fires. *)
Inductive Event :=
  | Report (now : Z) (netInfoState : NetInfoState)
  | Second.

Definition apply_event (svc : Service) (e : Event) : Service :=
  match e with
  | Report now netInfoState => updateState now netInfoState svc
  | Second => stats_tick svc
  end.

Definition run_events (es : list Event) (svc : Service) : Service :=
  foldl apply_event svc es.

(** How often a report turned a disconnected service connected, and how
    often the interval fired. *)
Fixpoint reconnects (connected : bool) (es : list Event) : Z :=
  match es with
  | [] => 0
  | Report _ s :: es =>
      let c := default false (ni_isConnected s) in
      (if negb connected && c then 1 else 0) + reconnects c es
  | Second :: es => reconnects connected es
  end.

Fixpoint seconds (es : list Event) : Z :=
  match es with
  | [] => 0
  | Report _ _ :: es => seconds es
  | Second :: es => 1 + seconds es
  end.

End NetworkService.

(* ===================================================================== *)
(** * A concrete platform for running the service *)
(* ===================================================================== *)

(** A scripted server and a concrete text format, used to run the service
    on explicit inputs.  The server answers its [n]-th request with the
    [n]-th entry of a script and rejects once the script is exhausted. *)
Module Scripted.
Import Entities SyncService.

#[global] Instance ActionType_countable : Countable ActionType.
Proof.
  refine (inj_countable'
    (λ t, match t with CREATE => 0%nat | UPDATE => 1%nat | DELETE => 2%nat end)
    (λ n, match n with 0%nat => CREATE | 1%nat => UPDATE | _ => DELETE end) _).
  by intros [].
Defined.

#[global] Instance Payload_countable : Countable Payload.
Proof.
  refine (inj_countable' (λ p, (data_id p, data_fields p))
                         (λ '(i, f), mkPayload i f) _).
  by intros [].
Defined.

#[global] Instance SyncAction_countable : Countable SyncAction.
Proof.
  refine (inj_countable'
    (λ a, (a_id a, a_type a, a_table a, a_data a, a_timestamp a, a_retries a))
    (λ '(i, ty, tb, d, ts, r), mkAction i ty tb d ts r) _).
  by intros [].
Defined.

#[global] Instance AppConfig_eq_dec : EqDecision AppConfig.
Proof. solve_decision. Defined.
#[global] Instance ConfigValue_eq_dec : EqDecision ConfigValue.
Proof. solve_decision. Defined.

#[global] Instance ConfigValue_countable : Countable ConfigValue.
Proof.
  refine (inj_countable'
    (λ v, match v with
          | ConfigObject c => Some (inl (lastSyncTime c, other_keys c))
          | ConfigArray elements => Some (inr elements)
          | ConfigPrimitive => None
          end)
    (λ o, match o with
          | Some (inl (t, k)) => ConfigObject (mkConfig t k)
          | Some (inr elements) => ConfigArray elements
          | None => ConfigPrimitive
          end) _).
  by intros [[]| |].
Defined.

(** Binary digits of a positive number, least significant first. *)
Fixpoint digits (p : positive) : string :=
  match p with
  | xH => EmptyString
  | xO p => String "0"%char (digits p)
  | xI p => String "1"%char (digits p)
  end.

Fixpoint undigits (s : string) : option positive :=
  match s with
  | EmptyString => Some xH
  | String c s =>
      p ← undigits s;
      if decide (c = "0"%char) then Some (xO p)
      else if decide (c = "1"%char) then Some (xI p)
      else None
  end.

Definition print `{Countable A} (x : A) : string := String "#"%char (digits (encode x)).

Definition read `{Countable A} (s : string) : option A :=
  match s with
  | String "#"%char s => p ← undigits s; decode p
  | _ => None
  end.

Definition script_fetch (req : Request) (script : list FetchResult)
    : FetchResult * list FetchResult :=
  match script with
  | [] => (NetworkFailure, [])
  | r :: script => (r, script)
  end.

#[global] Instance platform : Platform :=
  {| Remote := list FetchResult;
     fetch := script_fetch;
     JSON_stringify_queue := print;
     JSON_parse_queue := read;
     JSON_stringify_config := print;
     JSON_parse_config := read |}.

(** The same text format in front of a server that is down: every request
    is answered with a non-ok response. *)
Definition unavailable : Platform :=
  {| Remote := unit;
     fetch := λ _ r, (Response false, r);
     JSON_stringify_queue := print;
     JSON_parse_queue := read;
     JSON_stringify_config := print;
     JSON_parse_config := read |}.

(** The same text format in front of a server that accepts every
    request. *)
Definition accepting : Platform :=
  {| Remote := unit;
     fetch := λ _ r, (Response true, r);
     JSON_stringify_queue := print;
     JSON_parse_queue := read;
     JSON_stringify_config := print;
     JSON_parse_config := read |}.

Definition online : NetworkState :=
  {| isConnected := true; isInternetReachable := Some true |}.

Definition empty_db : Database := {| users := []; todos := [] |}.

(** A running app with connectivity: the given text under the storage
    keys, nothing in flight, empty console and freshly created stores. *)
Definition world `{Platform} (st : gmap string string) (r : Remote)
    (d : Database) : World :=
  {| storage := st; isSyncing := false; network := online;
     remote := r; requests := []; db := Some d; clock := 1000; console := [];
     todoStore := TodoStore.initialState; syncStore := SyncStore.initialState |}.

(** Storage holding the text of a queue. *)
Definition queue_text (q : list SyncAction) : gmap string string :=
  {[ "sync_queue" := print q ]}.

Definition milk : Payload :=
  {| data_id := Some "temp_1"; data_fields := "title: Buy milk" |}.

Definition create_milk : SyncAction :=
  {| a_id := "a1"; a_type := CREATE; a_table := "todos"; a_data := milk;
     a_timestamp := 900; a_retries := Some 0 |}.

Definition update_milk : SyncAction :=
  {| a_id := "a2"; a_type := UPDATE; a_table := "todos";
     a_data := {| data_id := Some "temp_1"; data_fields := "completed: true" |};
     a_timestamp := 950; a_retries := Some 0 |}.

Definition milk_row : Todo :=
  {| todo_id := "temp_1"; todo_title := "Buy milk"; todo_description := None;
     todo_completed := false; todo_createdAt := 900; todo_updatedAt := 900;
     todo_synced := false |}.

Definition milk_data : TodoStore.TodoData :=
  {| TodoStore.d_user_id := "u1"; TodoStore.d_title := "Buy milk";
     TodoStore.d_description := None; TodoStore.d_completed := false;
     TodoStore.d_priority := TodoStore.medium; TodoStore.d_due_date := None |}.

Definition with_todoStore `{Platform} (ts : TodoStore.TodoState) (w : World) : World :=
  {| storage := storage w; isSyncing := isSyncing w; network := network w;
     remote := remote w; requests := requests w; db := db w; clock := clock w;
     console := console w; todoStore := ts; syncStore := syncStore w |}.

Definition offline : NetworkState :=
  {| isConnected := false; isInternetReachable := Some false |}.

Definition with_network `{Platform} (n : NetworkState) (w : World) : World :=
  {| storage := storage w; isSyncing := isSyncing w; network := n;
     remote := remote w; requests := requests w; db := db w; clock := clock w;
     console := console w; todoStore := todoStore w; syncStore := syncStore w |}.

(** An intent that was stored with two failed attempts on record. *)
Definition stale_milk : SyncAction :=
  {| a_id := "a3"; a_type := CREATE; a_table := "todos"; a_data := milk;
     a_timestamp := 700; a_retries := Some 2 |}.

Definition ana_row : User :=
  {| user_id := "u1"; user_name := "Ana"; user_email := "ana@example.com";
     user_createdAt := 800; user_updatedAt := 800; user_synced := false |}.

End Scripted.

(* ===================================================================== *)
(** * Operation sequences on the todo store *)
(* ===================================================================== *)

Module TodoTrace.
Import TodoStore.

(** One optimistic operation, with the values the environment supplies to
    [optimisticAdd] (the generated temp id and two clock readings). *)
Inductive Op :=
  | Add (tempId : string) (t1 t2 : Z) (d : TodoData)
  | Update (i : string) (u : TodoUpdates)
  | Delete (i : string)
  | Confirm (tempId : string) (realTodo : OptimisticTodo)
  | Revert (tempId : string).

Definition apply (op : Op) (s : TodoState) : TodoState :=
  match op with
  | Add tempId t1 t2 d => snd (optimisticAdd tempId t1 t2 d s)
  | Update i u => optimisticUpdate i u s
  | Delete i => optimisticDelete i s
  | Confirm tempId realTodo => confirmOptimistic tempId realTodo s
  | Revert tempId => revertOptimistic tempId s
  end.

Definition run (ops : list Op) (s : TodoState) : TodoState :=
  foldl (λ s op, apply op s) s ops.

(** Number of todos of a list satisfying a test. *)
Fixpoint tally (f : OptimisticTodo → bool) (l : list OptimisticTodo) : Z :=
  match l with
  | [] => 0
  | t :: l => (if f t then 1 else 0) + tally f l
  end.

(** The three counters the store maintains incrementally agree with a
    full recomputation. *)
Definition counters_agree (now : Z) (s : TodoState) : Prop :=
  total (stats s) = total (calculateStats now (todos s)) ∧
  completed (stats s) = completed (calculateStats now (todos s)) ∧
  pending (stats s) = pending (calculateStats now (todos s)).

(** Every todo of a list has a boolean [completed]. *)
Definition completed_defined (l : list OptimisticTodo) : Prop :=
  Forall (λ t, is_Some (t_completed t)) l.

(** An operation that respects the [completed] flag: an [Update] leaves
    the key out or gives it a boolean, and a [Confirm] supplies a todo with
    the flag of the entry it replaces. *)
Definition keeps_completed (s : TodoState) (op : Op) : bool :=
  match op with
  | Update _ u => bool_decide (u_completed u ≠ Some None)
  | Confirm tempId realTodo =>
      match findIndex tempId (todos s) with
      | Some index =>
          match todos s !! index with
          | Some old => bool_decide (t_completed realTodo = t_completed old)
          | None => true
          end
      | None => true
      end
  | _ => true
  end.

Fixpoint completed_respected (s : TodoState) (ops : list Op) : bool :=
  match ops with
  | [] => true
  | op :: ops => keeps_completed s op && completed_respected (apply op s) ops
  end.

(** How many visible todos carry the id [i]. *)
Definition occurrences (i : string) (s : TodoState) : nat :=
  length (filter (λ t, t_id t = i) (todos s)).

(** The data actions that are not optimistic. *)
Inductive DataOp :=
  | SetTodos (now : Z) (l : list OptimisticTodo)
  | AddTodo (t : OptimisticTodo)
  | UpdateTodo (i : string) (u : TodoUpdates)
  | DeleteTodo (i : string)
  | UpdateStats (now : Z).

Definition apply_data (op : DataOp) (s : TodoState) : TodoState :=
  match op with
  | SetTodos now l => setTodos now l s
  | AddTodo t => addTodo t s
  | UpdateTodo i u => updateTodo i u s
  | DeleteTodo i => deleteTodo i s
  | UpdateStats now => updateStats now s
  end.

Definition run_data (ops : list DataOp) (s : TodoState) : TodoState :=
  foldl (λ s op, apply_data op s) s ops.

(** A data action whose arguments have a boolean [completed]: the todos
    handed to [setTodos] and [addTodo] carry one, and an update leaves the
    key out or gives it a boolean. *)
Definition completed_typed (op : DataOp) : bool :=
  match op with
  | SetTodos _ l => bool_decide (Forall (λ t, is_Some (t_completed t)) l)
  | AddTodo t => bool_decide (is_Some (t_completed t))
  | UpdateTodo _ u => bool_decide (u_completed u ≠ Some None)
  | DeleteTodo _ | UpdateStats _ => true
  end.

Section Matching.
Variable toLowerCase : string → string.
Variable includes : string → string → bool.

(** A todo passes every criterion that the filters switch on. *)
Definition matches (f : TodoFilters) (t : OptimisticTodo) : bool :=
  match f_completed f with
  | Some c => bool_decide (t_completed t = Some c)
  | None => true
  end
  && match f_priority f with
     | Some p => bool_decide (t_priority t = p)
     | None => true
     end
  && match f_user_id f with
     | Some u => if nonempty u then bool_decide (t_user_id t = u) else true
     | None => true
     end
  && match f_search f with
     | Some q =>
         if nonempty q then search_hit toLowerCase includes (toLowerCase q) t
         else true
     | None => true
     end
  && match f_due_date_from f with
     | Some from => if nonzero from then due_from from t else true
     | None => true
     end
  && match f_due_date_to f with
     | Some to => if nonzero to then due_to to t else true
     | None => true
     end.

(** The page cut out by [offset] and [limit]. *)
Definition paginate {A} (f : TodoFilters) (l : list A) : list A :=
  let l := if nonzero (f_offset f) then slice_from (f_offset f) l else l in
  if nonzero (f_limit f) then slice_upto (f_limit f) l else l.

End Matching.

End TodoTrace.

(* ===================================================================== *)
(** * Observations on runs of the sync service *)
(* ===================================================================== *)

Module SyncTrace.
Import Entities SyncService.

Section Trace.
Context `{Platform}.

(** The queue that the persisted ['sync_queue'] text stands for. *)
Definition stored_queue (w : World) : list SyncAction :=
  match storage w !! "sync_queue" with
  | Some text =>
      if decide (text = EmptyString) then [] else default [] (JSON_parse_queue text)
  | None => []
  end.

(** The ['sync_queue'] key is absent or holds text that does not parse. *)
Definition unreadable (w : World) : Prop :=
  storage w !! "sync_queue" = None ∨
  ∃ text, storage w !! "sync_queue" = Some text ∧ JSON_parse_queue text = None.

(** The ['sync_queue'] key is absent or empty, holds text that does not
    parse, or holds the text of an array of actions as [setSyncQueue]
    writes it.  The service leaves no other text under the key; text that
    is valid JSON without being an array of actions would come back from
    [JSON.parse] as it is, and is not what [getSyncQueue] is declared to
    return. *)
Definition holds_queue_text (w : World) : Prop :=
  unreadable w ∨
  storage w !! "sync_queue" = Some EmptyString ∨
  ∃ q, storage w !! "sync_queue" = Some (JSON_stringify_queue q).

(** The request [processAction] sends for an intent. *)
Definition request_of (action : SyncAction) : Request :=
  match a_type action with
  | CREATE =>
      {| method := POST; url := API_BASE_URL +:+ "/" +:+ a_table action;
         body := DataBody (a_data action) |}
  | UPDATE =>
      {| method := PUT;
         url := API_BASE_URL +:+ "/" +:+ a_table action +:+ "/"
                +:+ template (data_id (a_data action));
         body := DataBody (a_data action) |}
  | DELETE =>
      {| method := DELETE_;
         url := API_BASE_URL +:+ "/" +:+ a_table action +:+ "/"
                +:+ template (data_id (a_data action));
         body := NoBody |}
  end.

(** The request [uploadTodo] sends for a row, and whether an answer is an
    ok response. *)
Definition upload_of (todo : Todo) : Request :=
  {| method := POST; url := API_BASE_URL +:+ "/todos"; body := TodoBody todo |}.

Definition accepted (res : FetchResult) : bool :=
  match res with
  | Response ok => ok
  | NetworkFailure => false
  end.

(** What [processAction] writes to the console when the request is
    rejected. *)
Definition rejection_log (action : SyncAction) : LogEntry :=
  match a_type action with
  | CREATE => ErrorCreating FetchRejected
  | UPDATE => ErrorUpdating FetchRejected
  | DELETE => ErrorDeleting FetchRejected
  end.

(** One call of [syncService.addToSyncQueue], with the id it generates. *)
Record Enqueue := mkEnqueue {
  e_newId : string;
  e_type : ActionType;
  e_table : string;
  e_data : Payload;
}.

Definition enqueue_all (es : list Enqueue) : M unit :=
  for_of es (λ e, addToSyncQueue (e_newId e) (e_type e) (e_table e) (e_data e)).

(** The intent that an [Enqueue] call made at time [now] appends. *)
Definition enqueued (now : Z) (e : Enqueue) : SyncAction :=
  {| a_id := e_newId e; a_type := e_type e; a_table := e_table e;
     a_data := e_data e; a_timestamp := now; a_retries := Some 0 |}.

(** [n] successive runs of [processSyncQueue]. *)
Fixpoint passes (n : nat) : M unit :=
  match n with
  | O => mret tt
  | S n => processSyncQueue ;; passes n
  end.

(** A remote that accepts no request: every answer is a non-ok response
    or a rejected promise. *)
Definition never_accepts : Prop :=
  ∀ req r, fst (fetch req r) ≠ Response true.

(** The console shows no "removed after 3 attempts" warning. *)
Definition no_removal_warning (c : list LogEntry) : Prop :=
  ∀ action, WarnActionRemoved action ∉ c.

(** The two guards at the head of [syncPendingChanges] let the call
    through. *)
Definition pass_starts (options : SyncOptions) (w : World) : Prop :=
  isSyncing w && negb (default false (forceSync options)) = false ∧
  isInternetReachable (network w) = Some true.

(** The [catch] clause of [syncPendingChanges]. *)
Definition on_sync_error (error : Error) : M bool :=
  console_log (ErrorDuringSync error) ;; mret false.

(** A computation leaves the component [f] of the world as it found it. *)
Definition keeps {A B} (f : World → B) (m : M A) : Prop :=
  ∀ w, f (snd (m w)) = f w.

(** A component that storage writes, requests and console output do not
    touch, and one that database writes do not touch. *)
Definition ignores_io {B} (f : World → B) : Prop :=
  (∀ st w, f (set_storage st w) = f w) ∧
  (∀ r rs w, f (set_remote r rs w) = f w) ∧
  (∀ c w, f (set_console c w) = f w).

Definition ignores_db {B} (f : World → B) : Prop :=
  ∀ d w, f (set_db d w) = f w.

(** As [JSON_queue_faithful], for the ['app_config'] text. *)
Definition JSON_config_faithful : Prop :=
  ∀ c, JSON_stringify_config c ≠ EmptyString ∧
       JSON_parse_config (JSON_stringify_config c) = Some c.

(** A remote that accepts every request. *)
Definition always_accepts : Prop :=
  ∀ req r, fst (fetch req r) = Response true.

(** The value that the persisted ['app_config'] text stands for. *)
Definition stored_config (w : World) : ConfigValue :=
  match storage w !! "app_config" with
  | Some text =>
      if decide (text = EmptyString) then defaultConfig
      else default defaultConfig (JSON_parse_config text)
  | None => defaultConfig
  end.

(** The request [uploadUser] sends for a row. *)
Definition upload_user_of (user : User) : Request :=
  {| method := POST; url := API_BASE_URL +:+ "/users"; body := UserBody user |}.

(** The rows with [synced = 0], none before the database is opened. *)
Definition unsynced_users (w : World) : list User :=
  match db w with
  | Some d => filter (λ u, user_synced u = false) (users d)
  | None => []
  end.

Definition unsynced_todos (w : World) : list Todo :=
  match db w with
  | Some d => filter (λ t, todo_synced t = false) (todos d)
  | None => []
  end.

(** A component untouched by writes of the ['sync_queue'] key, requests
    and console output. *)
Definition ignores_queue_io {B} (f : World → B) : Prop :=
  (∀ text w, f (set_storage (<["sync_queue" := text]> (storage w)) w) = f w) ∧
  (∀ r rs w, f (set_remote r rs w) = f w) ∧
  (∀ c w, f (set_console c w) = f w).

(** A row as it was, or the same row with [synced] set. *)
Definition user_synced_more (u u' : User) : Prop :=
  u' = u ∨ u' = mark_user (user_id u) u.

Definition todo_synced_more (t t' : Todo) : Prop :=
  t' = t ∨ t' = mark_todo (todo_id t) t.

End Trace.

End SyncTrace.

(* ===================================================================== *)
(** * Properties of the todo store *)
(* ===================================================================== *)

Module TodoStoreProps.
Import TodoStore TodoTrace.

(** ** [findIndex] *)

Lemma findIndex_None i l : findIndex i l = None ↔ i ∉ t_id <$> l.
Proof.
  unfold findIndex. rewrite fmap_None, list_elem_of_fmap. split.
  - intros Hl (t & -> & Hin). apply list_find_None in Hl.
    rewrite list.Forall_forall in Hl. exact (Hl t Hin eq_refl).
  - intros Hn. apply list_find_None, list.Forall_forall.
    intros t Hin Heq. apply Hn. by exists t.
Qed.

Lemma findIndex_Some i l n :
  findIndex i l = Some n →
  ∃ t, l !! n = Some t ∧ t_id t = i ∧
       ∀ j t', l !! j = Some t' → (j < n)%nat → t_id t' ≠ i.
Proof.
  unfold findIndex. intros Hf.
  apply fmap_Some in Hf as ([m t] & Hf & ->).
  apply list_find_Some in Hf as (Hl & Ht & Hbefore).
  exists t. simpl. eauto.
Qed.

Lemma findIndex_first i l n t :
  l !! n = Some t → t_id t = i →
  (∀ j t', l !! j = Some t' → (j < n)%nat → t_id t' ≠ i) →
  findIndex i l = Some n.
Proof.
  intros Hl Ht Hb. unfold findIndex.
  assert (list_find (λ t, t_id t = i) l = Some (n, t)) as ->; [|done].
  apply list_find_Some. eauto.
Qed.

(** ** [calculateStats] counts *)

Lemma calculateStats_fold now l acc :
  foldl (calculateStats_step now) acc l =
  {| total := total acc;
     completed := completed acc + tally is_completed l;
     pending := pending acc + tally (λ t, negb (is_completed t)) l;
     overdue := overdue acc
                + tally (λ t, negb (is_completed t) && is_overdue now t) l |}.
Proof.
  revert acc. induction l as [|t l IH]; intros acc; simpl.
  - destruct acc; simpl; f_equal; lia.
  - rewrite IH. unfold calculateStats_step.
    destruct (is_completed t); simpl; [f_equal; lia|].
    destruct (is_overdue now t); simpl; f_equal; lia.
Qed.

Lemma calculateStats_counts now l :
  calculateStats now l =
  {| total := Z.of_nat (length l);
     completed := tally is_completed l;
     pending := tally (λ t, negb (is_completed t)) l;
     overdue := tally (λ t, negb (is_completed t) && is_overdue now t) l |}.
Proof. unfold calculateStats. rewrite calculateStats_fold. simpl. f_equal. Qed.

Lemma tally_app f l1 l2 : tally f (l1 ++ l2) = tally f l1 + tally f l2.
Proof. induction l1 as [|t l1 IH]; simpl; [done|]. rewrite IH. lia. Qed.

Lemma tally_delete f l n t :
  l !! n = Some t →
  tally f (delete n l) = tally f l - (if f t then 1 else 0).
Proof.
  intros Hl. rewrite <- (take_drop_middle l n t Hl) at 2.
  rewrite delete_take_drop, !tally_app. simpl. lia.
Qed.

Lemma tally_insert f l n t t' :
  l !! n = Some t →
  tally f (<[n := t']> l) =
  tally f l - (if f t then 1 else 0) + (if f t' then 1 else 0).
Proof.
  intros Hl. rewrite <- (take_drop_middle l n t Hl) at 2.
  rewrite insert_take_drop by (by eapply lookup_lt_Some).
  rewrite !tally_app. simpl. lia.
Qed.

Lemma length_delete_Z (l : list OptimisticTodo) n t :
  l !! n = Some t → Z.of_nat (length (delete n l)) = Z.of_nat (length l) - 1.
Proof.
  intros Hl. rewrite length_delete by eauto.
  apply lookup_lt_Some in Hl. lia.
Qed.

(** ** Each operation preserves the agreement of the three counters *)

Ltac counters :=
  unfold counters_agree in *; rewrite ?calculateStats_counts in *; simpl in *.

Lemma account_agree now t s :
  counters_agree now s →
  counters_agree now (set_stats (account t) (set_todos (cons t) s)).
Proof.
  counters. intros (Ht & Hc & Hp). unfold account.
  destruct (is_completed t); simpl; lia.
Qed.

Lemma forget_agree now n t s :
  todos s !! n = Some t →
  counters_agree now s →
  counters_agree now (set_stats (forget t) (set_todos (delete n) s)).
Proof.
  counters. intros Hl (Ht & Hc & Hp).
  rewrite (length_delete_Z _ _ _ Hl), !(tally_delete _ _ _ _ Hl).
  unfold forget. destruct (is_completed t); simpl; lia.
Qed.

Lemma replace_agree now n old new u s :
  todos s !! n = Some old →
  is_Some (t_completed old) →
  u_completed u ≠ Some None →
  t_completed new = default (t_completed old) (u_completed u) →
  counters_agree now s →
  counters_agree now
    (set_stats (adjust_completed u (t_completed old))
               (set_todos (λ l, <[n := new]> l) s)).
Proof.
  counters. intros Hl [b Hb] Hu Hnew (Ht & Hc & Hp).
  rewrite length_insert, !(tally_insert _ _ _ _ new Hl).
  unfold adjust_completed, is_completed in *. rewrite Hnew, Hb.
  destruct (u_completed u) as [[[]|]|], b; simpl;
    try done; try case_bool_decide; simpl; try done; lia.
Qed.

Lemma confirm_agree now n old new s :
  todos s !! n = Some old →
  t_completed new = t_completed old →
  counters_agree now s →
  counters_agree now (set_todos (λ l, <[n := new]> l) s).
Proof.
  counters. intros Hl Hnew (Ht & Hc & Hp).
  rewrite length_insert, !(tally_insert _ _ _ _ new Hl).
  unfold is_completed in *. rewrite Hnew. lia.
Qed.

Lemma apply_agree now op s :
  completed_defined (todos s) →
  keeps_completed s op = true →
  counters_agree now s → counters_agree now (apply op s).
Proof.
  intros Hd Hk Hs.
  destruct op as [tempId t1 t2 d|i u|i|tempId realTodo|tempId]; simpl.
  - by apply account_agree.
  - unfold optimisticUpdate.
    destruct (findIndex i (todos s)) as [n|] eqn:Hf; [|done].
    destruct (todos s !! n) as [old|] eqn:Hl; [|done].
    simpl in Hk. apply bool_decide_eq_true in Hk.
    apply replace_agree; try done.
    eapply (proj1 (list.Forall_forall _ _) Hd), list_elem_of_lookup_2, Hl.
  - unfold optimisticDelete.
    destruct (findIndex i (todos s)) as [n|] eqn:Hf; [|done].
    destruct (todos s !! n) as [t|] eqn:Hl; [|done].
    by apply forget_agree.
  - unfold confirmOptimistic. simpl in Hk.
    destruct (findIndex tempId (todos s)) as [n|] eqn:Hf; [|done].
    destruct (findIndex_Some _ _ _ Hf) as (old & Hl & _).
    rewrite Hl in Hk. apply (confirm_agree now n old); [done| |done].
    by apply bool_decide_eq_true in Hk.
  - unfold revertOptimistic.
    destruct (findIndex tempId (todos s)) as [n|] eqn:Hf; [|done].
    destruct (todos s !! n) as [t|] eqn:Hl; [|done].
    by apply forget_agree.
Qed.

Lemma completed_defined_insert l n (t : OptimisticTodo) :
  completed_defined l → is_Some (t_completed t) →
  completed_defined (<[n := t]> l).
Proof. intros Hl Ht. by apply Forall_insert. Qed.

Lemma completed_defined_delete l n :
  completed_defined l → completed_defined (delete n l).
Proof. apply Forall_delete. Qed.

Lemma apply_defined op s :
  completed_defined (todos s) →
  keeps_completed s op = true →
  completed_defined (todos (apply op s)).
Proof.
  intros Hd Hk.
  destruct op as [tempId t1 t2 d|i u|i|tempId realTodo|tempId]; simpl.
  - constructor; [by eexists|done].
  - unfold optimisticUpdate.
    destruct (findIndex i (todos s)) as [n|] eqn:Hf; [|done].
    destruct (todos s !! n) as [old|] eqn:Hl; [|done]. simpl.
    simpl in Hk. apply bool_decide_eq_true in Hk.
    apply completed_defined_insert; [done|]. simpl.
    assert (is_Some (t_completed old)) as Hold
      by (eapply (proj1 (list.Forall_forall _ _) Hd), list_elem_of_lookup_2, Hl).
    destruct (u_completed u) as [[c|]|]; simpl; [by eexists|done|done].
  - unfold optimisticDelete.
    destruct (findIndex i (todos s)) as [n|] eqn:Hf; [|done].
    destruct (todos s !! n) as [t|] eqn:Hl; [|done]. simpl.
    by apply completed_defined_delete.
  - unfold confirmOptimistic. simpl in Hk.
    destruct (findIndex tempId (todos s)) as [n|] eqn:Hf; [|done].
    destruct (findIndex_Some _ _ _ Hf) as (old & Hl & _).
    rewrite Hl in Hk. apply bool_decide_eq_true in Hk. simpl.
    apply completed_defined_insert; [done|]. rewrite Hk.
    eapply (proj1 (list.Forall_forall _ _) Hd), list_elem_of_lookup_2, Hl.
  - unfold revertOptimistic.
    destruct (findIndex tempId (todos s)) as [n|] eqn:Hf; [|done].
    destruct (todos s !! n) as [t|] eqn:Hl; [|done]. simpl.
    by apply completed_defined_delete.
Qed.

Lemma apply_overdue op s : overdue (stats (apply op s)) = overdue (stats s).
Proof.
  destruct op as [tempId t1 t2 d|i u|i|tempId realTodo|tempId]; simpl.
  - unfold account, is_completed. simpl. by destruct (d_completed d).
  - unfold optimisticUpdate.
    destruct (findIndex i (todos s)) as [n|]; [|done].
    destruct (todos s !! n) as [old|]; [|done]. simpl.
    unfold adjust_completed.
    destruct (u_completed u) as [[[]|]|]; try done; by case_bool_decide.
  - unfold optimisticDelete.
    destruct (findIndex i (todos s)) as [n|]; [|done].
    destruct (todos s !! n) as [t|]; [|done]. simpl.
    unfold forget. by destruct (is_completed t).
  - unfold confirmOptimistic. by destruct (findIndex tempId (todos s)).
  - unfold revertOptimistic.
    destruct (findIndex tempId (todos s)) as [n|]; [|done].
    destruct (todos s !! n) as [t|]; [|done]. simpl.
    unfold forget. by destruct (is_completed t).
Qed.

(** C3, as stated, fails: the store never touches [overdue] when a todo is
    added, so after adding one pending todo whose due date has passed the
    maintained stats differ from [calculateStats] of the visible list. *)
Lemma stats_diverge_on_overdue :
  let d := {| d_user_id := "u1"; d_title := "Buy milk"; d_description := None;
              d_completed := false; d_priority := medium; d_due_date := Some 5 |} in
  let s := run [Add "temp_1" 1 1 d] initialState in
  stats s = {| total := 1; completed := 0; pending := 1; overdue := 0 |} ∧
  calculateStats 10 (todos s)
    = {| total := 1; completed := 0; pending := 1; overdue := 1 |} ∧
  stats s ≠ calculateStats 10 (todos s).
Proof. repeat split. discriminate. Qed.

(** A second way the maintained stats leave the recomputation:
    [confirmOptimistic] swaps the entry without looking at its
    [completed] flag. *)
Lemma stats_diverge_on_confirm :
  let d := {| d_user_id := "u1"; d_title := "Buy milk"; d_description := None;
              d_completed := false; d_priority := medium; d_due_date := None |} in
  let real := {| t_id := "42"; t_user_id := "u1"; t_title := "Buy milk";
                 t_description := None; t_completed := Some true; t_priority := medium;
                 t_due_date := None; t_created_at := 1; t_updated_at := 2;
                 t_synced := true; _isOptimistic := None; _originalId := None |} in
  let s := run [Add "temp_1" 1 1 d; Confirm "temp_1" real] initialState in
  completed (stats s) = 0 ∧ completed (calculateStats 10 (todos s)) = 1.
Proof. by split. Qed.

(** A third way: an update that carries [completed: undefined] (allowed
    by [Partial<Todo>]) is skipped by the [!== undefined] test of the
    stats, while the spread writes [undefined] into the entry, which then
    counts as pending in a recomputation. *)
Lemma stats_diverge_on_undefined :
  let d := {| d_user_id := "u1"; d_title := "Buy milk"; d_description := None;
              d_completed := true; d_priority := medium; d_due_date := None |} in
  let u := {| u_id := None; u_user_id := None; u_title := None;
              u_description := None; u_completed := Some None;
              u_priority := None; u_due_date := None; u_created_at := None;
              u_updated_at := None; u_synced := None |} in
  let s := run [Add "temp_1" 1 1 d; Update "temp_1" u] initialState in
  t_completed <$> todos s = [None] ∧
  completed (stats s) = 1 ∧ pending (stats s) = 0 ∧
  completed (calculateStats 10 (todos s)) = 0 ∧
  pending (calculateStats 10 (todos s)) = 1.
Proof. by repeat split. Qed.

(** C3 (amended): over every sequence of optimistic add / update / delete /
    confirm / revert operations that starts from todos with a boolean
    [completed], in which no update carries [completed: undefined] and each
    confirm keeps the [completed] flag of the entry it replaces, the
    maintained [total], [completed] and [pending] stay equal to the
    recomputation from the visible list; the maintained [overdue] is left
    as it was by every operation, whatever the sequence. *)
Theorem counters_agree_after_run now ops s :
  (counters_agree now s →
   completed_defined (todos s) →
   completed_respected s ops = true →
   counters_agree now (run ops s)) ∧
  overdue (stats (run ops s)) = overdue (stats s).
Proof.
  split.
  - revert s. induction ops as [|op ops IH]; intros s Hs Hd Hk; [done|].
    simpl in Hk. apply andb_true_iff in Hk as [Hk1 Hk2].
    change (run (op :: ops) s) with (run ops (apply op s)).
    apply IH; [by apply apply_agree|by apply apply_defined|done].
  - revert s. induction ops as [|op ops IH]; intros s; [done|].
    change (run (op :: ops) s) with (run ops (apply op s)).
    by rewrite IH, apply_overdue.
Qed.

Lemma counters_agree_after_run_witness :
  let d := {| d_user_id := "u1"; d_title := "Buy milk"; d_description := None;
              d_completed := false; d_priority := medium; d_due_date := Some 5 |} in
  let u := {| u_id := None; u_user_id := None; u_title := None;
              u_description := None; u_completed := Some (Some true);
              u_priority := None; u_due_date := None; u_created_at := None;
              u_updated_at := None; u_synced := None |} in
  let real := {| t_id := "42"; t_user_id := "u1"; t_title := "Buy milk";
                 t_description := None; t_completed := Some true; t_priority := medium;
                 t_due_date := Some 5; t_created_at := 1; t_updated_at := 3;
                 t_synced := true; _isOptimistic := None; _originalId := None |} in
  let ops := [Add "temp_1" 1 1 d; Add "temp_2" 2 2 d; Update "temp_1" u;
              Confirm "temp_1" real; Revert "temp_2"; Delete "42"] in
  todos (run (take 4 ops) initialState) !! 1%nat = Some real ∧
  counters_agree 10 (run ops initialState) ∧
  overdue (stats (run ops initialState)) = overdue (stats initialState).
Proof.
  intros d u real ops. split; [reflexivity|].
  destruct (counters_agree_after_run 10 ops initialState) as [Hagree Hover].
  split; [|exact Hover].
  apply Hagree; [by repeat split|apply Forall_nil_2|reflexivity].
Defined.

(** ** Ids that are absent or occur once *)

Lemma occurs_once_split i (l : list OptimisticTodo) n t :
  l !! n = Some t → t_id t = i →
  (length (filter (λ t, t_id t = i) l) ≤ 1)%nat →
  (i ∉ t_id <$> take n l) ∧ (i ∉ t_id <$> drop (S n) l).
Proof.
  intros Hl Ht Hlen. rewrite <- (take_drop_middle l n t Hl) in Hlen.
  rewrite list.filter_app, filter_cons_True, length_app in Hlen by done.
  simpl in Hlen.
  assert (∀ l' : list OptimisticTodo,
            length (filter (λ t, t_id t = i) l') = 0%nat → i ∉ t_id <$> l') as Hno.
  { intros l' Hz (t' & -> & Hin)%list_elem_of_fmap.
    apply nil_length_inv in Hz.
    assert (t' ∈ filter (λ t0, t_id t0 = t_id t') l') as Hf
      by by apply list_elem_of_filter.
    rewrite Hz in Hf. by apply not_elem_of_nil in Hf. }
  split; apply Hno; lia.
Qed.

Lemma occurs_once_delete i (l : list OptimisticTodo) n t :
  l !! n = Some t → t_id t = i →
  (length (filter (λ t, t_id t = i) l) ≤ 1)%nat →
  findIndex i (delete n l) = None.
Proof.
  intros Hl Ht Hlen. destruct (occurs_once_split i l n t) as [H1 H2]; [done..|].
  apply findIndex_None. rewrite delete_take_drop, fmap_app.
  rewrite elem_of_app. tauto.
Qed.

Lemma occurs_once_insert i (l : list OptimisticTodo) n t r :
  l !! n = Some t → t_id t = i → t_id r ≠ i →
  (length (filter (λ t, t_id t = i) l) ≤ 1)%nat →
  findIndex i (<[n := r]> l) = None.
Proof.
  intros Hl Ht Hr Hlen. destruct (occurs_once_split i l n t) as [H1 H2]; [done..|].
  apply findIndex_None.
  rewrite insert_take_drop by (by eapply lookup_lt_Some).
  rewrite fmap_app, fmap_cons, elem_of_app, elem_of_cons.
  intros [?|[?|?]]; [tauto|congruence|tauto].
Qed.

Lemma findIndex_insert_same i (l : list OptimisticTodo) n r :
  findIndex i l = Some n → t_id r = i → findIndex i (<[n := r]> l) = Some n.
Proof.
  intros Hf Hr. destruct (findIndex_Some _ _ _ Hf) as (t & Hl & Ht & Hb).
  apply (findIndex_first _ _ _ r); [|done|].
  - apply list_lookup_insert_eq. by eapply lookup_lt_Some.
  - intros j t' Hj Hlt. apply (Hb j); [|done].
    by rewrite list_lookup_insert_ne in Hj by lia.
Qed.

Lemma revert_absent i s : i ∉ t_id <$> todos s → revertOptimistic i s = s.
Proof.
  intros Hn%findIndex_None. unfold revertOptimistic. by rewrite Hn.
Qed.

Lemma confirm_absent i r s : i ∉ t_id <$> todos s → confirmOptimistic i r s = s.
Proof.
  intros Hn%findIndex_None. unfold confirmOptimistic. by rewrite Hn.
Qed.

Lemma occurrences_absent i s : i ∉ t_id <$> todos s → occurrences i s = 0%nat.
Proof.
  intros Hn. unfold occurrences.
  assert (filter (λ t, t_id t = i) (todos s) = []) as ->; [|done].
  induction (todos s) as [|t l IH]; [done|].
  rewrite fmap_cons in Hn. apply not_elem_of_cons in Hn as [Hne Hl].
  rewrite filter_cons_False by congruence. by apply IH.
Qed.

(** The temp id that [optimisticAdd] mints, when no visible todo carries
    it yet, is carried by exactly one visible todo afterwards. *)
Lemma optimisticAdd_occurs_once tempId t1 t2 d s :
  tempId ∉ t_id <$> todos s →
  occurrences tempId (snd (optimisticAdd tempId t1 t2 d s)) = 1%nat.
Proof.
  intros Hn. pose proof (occurrences_absent _ _ Hn) as H0.
  unfold occurrences in *. simpl.
  rewrite filter_cons_True by done. simpl. by rewrite H0.
Qed.

(** C6: confirming or reverting an id that no visible todo carries leaves
    the store unchanged (no error), and a second [confirmOptimistic] (with
    the same todo) or [revertOptimistic] changes nothing after the first,
    for every id carried by at most one visible todo, which is the case
    of every temp id that [optimisticAdd] minted fresh. *)
Theorem confirm_revert_idempotent tempId realTodo s :
  (tempId ∉ t_id <$> todos s →
     revertOptimistic tempId s = s ∧ confirmOptimistic tempId realTodo s = s) ∧
  ((occurrences tempId s ≤ 1)%nat →
     revertOptimistic tempId (revertOptimistic tempId s)
       = revertOptimistic tempId s ∧
     confirmOptimistic tempId realTodo (confirmOptimistic tempId realTodo s)
       = confirmOptimistic tempId realTodo s) ∧
  (tempId ∉ t_id <$> todos s → ∀ t1 t2 d,
     let s1 := snd (optimisticAdd tempId t1 t2 d s) in
     revertOptimistic tempId (revertOptimistic tempId s1)
       = revertOptimistic tempId s1 ∧
     confirmOptimistic tempId realTodo (confirmOptimistic tempId realTodo s1)
       = confirmOptimistic tempId realTodo s1).
Proof.
  assert (∀ s, (occurrences tempId s ≤ 1)%nat →
     revertOptimistic tempId (revertOptimistic tempId s)
       = revertOptimistic tempId s ∧
     confirmOptimistic tempId realTodo (confirmOptimistic tempId realTodo s)
       = confirmOptimistic tempId realTodo s) as Honce.
  { clear s. intros s. unfold occurrences. intros Hlen. split.
    - unfold revertOptimistic at 2 3.
      destruct (findIndex tempId (todos s)) as [n|] eqn:Hf;
        [|by unfold revertOptimistic; rewrite Hf].
      destruct (findIndex_Some _ _ _ Hf) as (t & Hl & Ht & _). rewrite Hl.
      apply revert_absent. simpl. apply findIndex_None.
      by apply (occurs_once_delete _ _ _ t).
    - unfold confirmOptimistic at 2 3.
      destruct (findIndex tempId (todos s)) as [n|] eqn:Hf;
        [|by unfold confirmOptimistic; rewrite Hf].
      destruct (findIndex_Some _ _ _ Hf) as (t & Hl & Ht & _).
      destruct (decide (t_id realTodo = tempId)) as [Hr|Hr].
      + unfold confirmOptimistic. simpl.
        rewrite (findIndex_insert_same _ _ _ _ Hf Hr).
        destruct s; unfold set_todos; simpl. f_equal.
        apply list_insert_insert_eq.
      + apply confirm_absent. simpl. apply findIndex_None.
        by apply (occurs_once_insert _ _ _ t). }
  split; [intros Hn; split; [by apply revert_absent | by apply confirm_absent]|].
  split; [apply Honce|].
  intros Hn t1 t2 d s1. apply Honce. unfold s1.
  by rewrite optimisticAdd_occurs_once.
Qed.

Lemma confirm_revert_idempotent_witness :
  let d := {| d_user_id := "u1"; d_title := "Buy milk"; d_description := None;
              d_completed := false; d_priority := medium; d_due_date := None |} in
  let r := {| t_id := "42"; t_user_id := "u1"; t_title := "Buy milk";
              t_description := None; t_completed := Some false; t_priority := medium;
              t_due_date := None; t_created_at := 1; t_updated_at := 2;
              t_synced := true; _isOptimistic := None; _originalId := None |} in
  let s := snd (optimisticAdd "temp_1" 1 1 d initialState) in
  let s2 := snd (optimisticAdd "temp_2" 2 2 d s) in
  (revertOptimistic "temp_2" s = s ∧ confirmOptimistic "temp_2" r s = s) ∧
  (revertOptimistic "temp_1" (revertOptimistic "temp_1" s)
     = revertOptimistic "temp_1" s ∧
   confirmOptimistic "temp_1" r (confirmOptimistic "temp_1" r s)
     = confirmOptimistic "temp_1" r s) ∧
  (revertOptimistic "temp_2" (revertOptimistic "temp_2" s2)
     = revertOptimistic "temp_2" s2 ∧
   confirmOptimistic "temp_2" r (confirmOptimistic "temp_2" r s2)
     = confirmOptimistic "temp_2" r s2).
Proof.
  intros d r s s2.
  assert ("temp_2" ∉ t_id <$> todos s) as Hfresh
    by (simpl; rewrite list_elem_of_singleton; discriminate).
  split; [|split].
  - by apply (proj1 (confirm_revert_idempotent "temp_2" r s)).
  - apply (proj1 (proj2 (confirm_revert_idempotent "temp_1" r s))).
    vm_compute. lia.
  - by apply (proj2 (proj2 (confirm_revert_idempotent "temp_2" r s)) Hfresh 2 2 d).
Defined.

(** C10: for an id that no visible todo carries, [updateTodo],
    [deleteTodo], [optimisticUpdate] and [optimisticDelete] return the
    store state unchanged (todos, stats, filters and flags alike). *)
Theorem absent_id_is_noop i u s :
  i ∉ t_id <$> todos s →
  updateTodo i u s = s ∧ deleteTodo i s = s ∧
  optimisticUpdate i u s = s ∧ optimisticDelete i s = s.
Proof.
  intros Hn%findIndex_None.
  unfold updateTodo, deleteTodo, optimisticUpdate, optimisticDelete.
  by rewrite Hn.
Qed.

Lemma absent_id_is_noop_witness :
  let t := {| t_id := "temp_1"; t_user_id := "u1"; t_title := "Buy milk";
              t_description := None; t_completed := Some false; t_priority := medium;
              t_due_date := None; t_created_at := 1; t_updated_at := 1;
              t_synced := false; _isOptimistic := Some true; _originalId := None |} in
  let u := {| u_id := None; u_user_id := None; u_title := None;
              u_description := None; u_completed := Some (Some true);
              u_priority := None; u_due_date := None; u_created_at := None;
              u_updated_at := None; u_synced := None |} in
  let s := addTodo t initialState in
  updateTodo "42" u s = s ∧ deleteTodo "42" s = s ∧
  optimisticUpdate "42" u s = s ∧ optimisticDelete "42" s = s.
Proof.
  intros t u s. apply (absent_id_is_noop "42" u s).
  simpl. rewrite list_elem_of_singleton. discriminate.
Defined.

End TodoStoreProps.

(* ===================================================================== *)
(** * Properties of the sync store *)
(* ===================================================================== *)

Module SyncStoreProps.
Import Entities SyncStore.

(** [incrementRetries] maps over the queue: it never drops an intent,
    whatever its counter has reached. *)
Lemma incrementRetries_ids actionId s :
  a_id <$> queue (incrementRetries actionId s) = a_id <$> queue s.
Proof.
  unfold incrementRetries. simpl.
  induction (queue s) as [|a q IH]; [done|].
  rewrite !fmap_cons, <- IH. f_equal.
  by destruct (decide (a_id a = actionId)).
Qed.

Lemma incrementRetries_counts actionId s a :
  a ∈ queue s → a_id a = actionId →
  set_retries (retries_or_0 a + 1) a ∈ queue (incrementRetries actionId s).
Proof.
  intros Hin Hid. unfold incrementRetries. simpl.
  apply list_elem_of_fmap. exists a. split; [|done].
  by rewrite decide_True.
Qed.

Lemma incrementRetries_singleton i a s :
  queue s = [a] → a_id a = i →
  queue (incrementRetries i s) = [set_retries (retries_or_0 a + 1) a].
Proof.
  intros Hq Hi. unfold incrementRetries. simpl. rewrite Hq. simpl.
  by rewrite decide_True.
Qed.

(** Three increments make the intent a failed one, and it is still queued. *)
Lemma incrementRetries_three_times a s :
  queue s = [a] → a_retries a = Some 0 →
  let s' := incrementRetries (a_id a)
              (incrementRetries (a_id a) (incrementRetries (a_id a) s)) in
  queue s' = [set_retries 3 a] ∧ getFailedActions s' = [set_retries 3 a].
Proof.
  intros Hq Hr s'.
  pose proof (incrementRetries_singleton (a_id a) a s Hq eq_refl) as H1.
  pose proof (incrementRetries_singleton (a_id a) _ _ H1 eq_refl) as H2.
  pose proof (incrementRetries_singleton (a_id a) _ _ H2 eq_refl) as H3.
  assert (queue s' = [set_retries 3 a]) as Hs'.
  { unfold s'. rewrite H3.
    unfold retries_or_0, set_retries. simpl. by rewrite Hr. }
  split; [done|]. unfold getFailedActions. rewrite Hs'.
  by rewrite filter_cons_True by (unfold retries_or_0; simpl; lia).
Qed.

End SyncStoreProps.

(* ===================================================================== *)
(** * Properties of the sync service *)
(* ===================================================================== *)

Module SyncServiceProps.
Import Entities SyncService SyncTrace.

Section Props.
Context `{Platform}.

(** ** Running the storage helpers *)

Ltac run := unfold mbind, M_bind, mret, M_ret, try_catch, gets, modify; simpl.

Lemma getSyncQueue_run w : getSyncQueue w = (Ok (stored_queue w), w).
Proof.
  unfold getSyncQueue, stored_queue, getString, JSON_parse_queue_or_throw. run.
  destruct (storage w !! "sync_queue") as [text|]; [|done].
  destruct (decide (text = EmptyString)); [done|].
  by destruct (JSON_parse_queue text).
Qed.

Lemma setSyncQueue_run q w :
  setSyncQueue q w =
  (Ok tt, set_storage (<["sync_queue" := JSON_stringify_queue q]> (storage w)) w).
Proof. done. Qed.

Lemma stored_queue_set q w :
  JSON_queue_faithful →
  stored_queue (set_storage (<["sync_queue" := JSON_stringify_queue q]> (storage w)) w) = q.
Proof.
  intros Hj. destruct (Hj q) as [Hne Hp].
  unfold stored_queue. simpl. rewrite lookup_insert_eq.
  destruct (decide _); [done|]. by rewrite Hp.
Qed.

Lemma removeFromSyncQueue_run i w :
  removeFromSyncQueue i w =
  (Ok tt, set_storage (<["sync_queue" :=
            JSON_stringify_queue (filter (λ a, a_id a ≠ i) (stored_queue w))]>
            (storage w)) w).
Proof. unfold removeFromSyncQueue. run. by rewrite getSyncQueue_run. Qed.

Lemma SyncStorageService_addToSyncQueue_run a w :
  SyncStorageService_addToSyncQueue a w =
  (Ok tt, set_storage (<["sync_queue" :=
            JSON_stringify_queue (stored_queue w ++ [a])]> (storage w)) w).
Proof. unfold SyncStorageService_addToSyncQueue. run. by rewrite getSyncQueue_run. Qed.


(** ** Dispatching one intent *)

Lemma processAction_run action w :
  processAction action w =
  let '(res, r) := fetch (request_of action) (remote w) in
  let w' := set_remote r (requests w ++ [request_of action]) w in
  match res with
  | Response ok => (Ok ok, w')
  | NetworkFailure =>
      (Ok false, set_console (console w' ++ [rejection_log action]) w')
  end.
Proof.
  unfold processAction, request_of, rejection_log.
  destruct (a_type action); simpl;
    unfold createOnServer, updateOnServer, deleteOnServer, do_fetch, console_log; run;
    by destruct (fetch _ (remote w)) as [[ok|] r].
Qed.

Lemma processAction_ok action w : ∃ b, fst (processAction action w) = Ok b.
Proof.
  rewrite processAction_run.
  destruct (fetch _ (remote w)) as [[ok|] r]; simpl; eauto.
Qed.

Lemma processAction_requests action w :
  requests (snd (processAction action w)) = requests w ++ [request_of action].
Proof.
  rewrite processAction_run. by destruct (fetch _ (remote w)) as [[ok|] r].
Qed.

Lemma processAction_never_accepted action w :
  never_accepts → fst (processAction action w) = Ok false.
Proof.
  intros Hn. rewrite processAction_run. specialize (Hn (request_of action) (remote w)).
  by destruct (fetch _ (remote w)) as [[[]|] r].
Qed.

(** The loop body, by the outcome of the dispatch. *)
Lemma processSyncQueue_entry_run action w :
  processSyncQueue_entry action w =
  let w1 := snd (processAction action w) in
  match fst (processAction action w) with
  | Ok true => removeFromSyncQueue (a_id action) w1
  | _ =>
      if bool_decide (retries_or_0 action + 1 >= 3) then
        let w2 := snd (removeFromSyncQueue (a_id action) w1) in
        (Ok tt, set_console
                  (console w2 ++
                   [WarnActionRemoved (set_retries (retries_or_0 action + 1) action)])
                  w2)
      else (Ok tt, w1)
  end.
Proof.
  destruct (processAction_ok action w) as [b Hb].
  unfold processSyncQueue_entry. run.
  destruct (processAction action w) as [res w1]. simpl in *. subst res.
  destruct b; simpl.
  - by rewrite removeFromSyncQueue_run.
  - unfold retries_or_0 at 1. simpl.
    destruct (bool_decide _); [|done].
    unfold console_log. run. by rewrite removeFromSyncQueue_run.
Qed.

Lemma processSyncQueue_entry_ok action w :
  fst (processSyncQueue_entry action w) = Ok tt.
Proof.
  rewrite processSyncQueue_entry_run. simpl.
  destruct (fst (processAction action w)) as [[]|]; simpl;
    rewrite ?removeFromSyncQueue_run; try done;
    by destruct (bool_decide _).
Qed.

Lemma processSyncQueue_entry_requests action w :
  requests (snd (processSyncQueue_entry action w)) = requests w ++ [request_of action].
Proof.
  rewrite processSyncQueue_entry_run. simpl.
  destruct (fst (processAction action w)) as [[]|]; simpl;
    rewrite ?removeFromSyncQueue_run; simpl;
    try (destruct (bool_decide _); simpl);
    apply processAction_requests.
Qed.

(** ** Loops whose body never throws *)

Lemma for_of_run {A} (body : A → M unit) l w :
  (∀ x w, fst (body x w) = Ok tt) →
  for_of l body w = (Ok tt, foldl (λ w x, snd (body x w)) w l).
Proof.
  intros Hb. revert w. induction l as [|x l IH]; intros w; [done|].
  simpl. run. specialize (Hb x w).
  destruct (body x w) as [res w1]. simpl in *. subst res. apply IH.
Qed.

Lemma processSyncQueue_run w :
  processSyncQueue w =
  (Ok tt, foldl (λ w a, snd (processSyncQueue_entry a w)) w (stored_queue w)).
Proof.
  unfold processSyncQueue. run. rewrite getSyncQueue_run.
  apply for_of_run, processSyncQueue_entry_ok.
Qed.

Lemma foldl_entry_requests q w :
  requests (foldl (λ w a, snd (processSyncQueue_entry a w)) w q)
  = requests w ++ (request_of <$> q).
Proof.
  revert w. induction q as [|a q IH]; intros w; simpl.
  - by rewrite app_nil_r.
  - rewrite IH, processSyncQueue_entry_requests. by rewrite <- app_assoc.
Qed.

(** ** Components a computation leaves alone *)

Lemma keeps_ret {A B} (f : World → B) (a : A) : keeps f (mret a).
Proof. done. Qed.

Lemma keeps_throw {A B} (f : World → B) e : keeps f (throw e : M A).
Proof. done. Qed.

Lemma keeps_gets {A B} (f : World → B) (g : World → A) : keeps f (gets g).
Proof. done. Qed.

Lemma keeps_modify {B} (f : World → B) g :
  (∀ w, f (g w) = f w) → keeps f (modify g).
Proof. intros Hg w. apply Hg. Qed.

Lemma keeps_bind {A C B} (f : World → B) (m : M A) (k : A → M C) :
  keeps f m → (∀ a, keeps f (k a)) → keeps f (m ≫= k).
Proof.
  intros Hm Hk w. unfold mbind, M_bind. specialize (Hm w).
  destruct (m w) as [[a|e] w1]; simpl in *; [|done].
  by rewrite Hk.
Qed.

Lemma keeps_try_catch {A B} (f : World → B) (m : M A) h :
  keeps f m → (∀ e, keeps f (h e)) → keeps f (try_catch m h).
Proof.
  intros Hm Hh w. unfold try_catch. specialize (Hm w).
  destruct (m w) as [[a|e] w1]; simpl in *; [done|].
  by rewrite Hh.
Qed.

Lemma keeps_for_of {A B} (f : World → B) (l : list A) body :
  (∀ x, keeps f (body x)) → keeps f (for_of l body).
Proof.
  intros Hb. induction l as [|x l IH]; simpl; [done|].
  apply keeps_bind; [apply Hb|done].
Qed.

Lemma keeps_console_log {B} (f : World → B) e :
  ignores_io f → keeps f (console_log e).
Proof. intros (_ & _ & Hc). apply keeps_modify. intros w. apply Hc. Qed.

Lemma keeps_set {B} (f : World → B) key value :
  ignores_io f → keeps f (set key value).
Proof. intros (Hs & _ & _). apply keeps_modify. intros w. apply Hs. Qed.

Lemma keeps_do_fetch {B} (f : World → B) req :
  ignores_io f → keeps f (do_fetch req).
Proof.
  intros (_ & Hr & _) w. unfold do_fetch.
  destruct (fetch req (remote w)) as [[ok|] r]; simpl; apply Hr.
Qed.

Lemma keeps_getSyncQueue {B} (f : World → B) : keeps f getSyncQueue.
Proof. intros w. by rewrite getSyncQueue_run. Qed.

Lemma keeps_removeFromSyncQueue {B} (f : World → B) i :
  ignores_io f → keeps f (removeFromSyncQueue i).
Proof. intros (Hs & _ & _) w. rewrite removeFromSyncQueue_run. apply Hs. Qed.

Lemma keeps_processAction {B} (f : World → B) action :
  ignores_io f → keeps f (processAction action).
Proof.
  intros (_ & Hr & Hc) w. rewrite processAction_run.
  destruct (fetch _ (remote w)) as [[ok|] r]; simpl; by rewrite ?Hc, Hr.
Qed.

Lemma keeps_processSyncQueue_entry {B} (f : World → B) action :
  ignores_io f → keeps f (processSyncQueue_entry action).
Proof.
  intros Hf. unfold processSyncQueue_entry.
  apply keeps_try_catch; [|intros e; by apply keeps_console_log].
  apply keeps_bind; [by apply keeps_processAction|].
  intros [|]; [by apply keeps_removeFromSyncQueue|].
  simpl. destruct (bool_decide _); [|apply keeps_ret].
  apply keeps_bind; [by apply keeps_removeFromSyncQueue|].
  intros _. by apply keeps_console_log.
Qed.

Lemma keeps_processSyncQueue {B} (f : World → B) :
  ignores_io f → keeps f processSyncQueue.
Proof.
  intros Hf. unfold processSyncQueue.
  apply keeps_bind; [apply keeps_getSyncQueue|].
  intros q. apply keeps_for_of. intros a. by apply keeps_processSyncQueue_entry.
Qed.

Lemma keeps_require_db {B} (f : World → B) : keeps f require_db.
Proof. intros w. unfold require_db. by destruct (db w). Qed.

Lemma keeps_markAsSynced {B} (f : World → B) table i :
  ignores_io f → ignores_db f → keeps f (markAsSynced table i).
Proof.
  intros Hf Hd. unfold markAsSynced.
  apply keeps_bind; [apply keeps_require_db|]. intros d.
  apply keeps_bind; [|intros _; by apply keeps_console_log].
  apply keeps_modify. intros w. apply Hd.
Qed.

Lemma keeps_uploadUnsyncedData {B} (f : World → B) :
  ignores_io f → ignores_db f → keeps f uploadUnsyncedData.
Proof.
  intros Hf Hd. unfold uploadUnsyncedData, getUnsyncedUsers, getUnsyncedTodos,
    uploadUnsyncedData_user, uploadUnsyncedData_todo, uploadUser, uploadTodo.
  apply keeps_try_catch; [|intros e; by apply keeps_console_log].
  repeat first
    [ apply keeps_ret
    | apply keeps_require_db
    | by apply keeps_console_log
    | by apply keeps_do_fetch
    | by apply keeps_markAsSynced
    | apply keeps_for_of; intros ?
    | apply keeps_try_catch; [|intros ?]
    | apply keeps_bind; [|intros ?]
    | match goal with |- keeps _ (if ?b then _ else _) => destruct b end ].
Qed.

Lemma keeps_getAppConfig {B} (f : World → B) : keeps f getAppConfig.
Proof.
  unfold getAppConfig, getString, JSON_parse_config_or_throw.
  apply keeps_try_catch; [|intros e; apply keeps_ret].
  apply keeps_bind; [apply keeps_gets|].
  intros [text|]; [|apply keeps_ret].
  destruct (decide _); [apply keeps_ret|].
  destruct (JSON_parse_config text); [apply keeps_ret|apply keeps_throw].
Qed.

Lemma keeps_syncPendingChanges_pass {B} (f : World → B) :
  ignores_io f → ignores_db f → keeps f syncPendingChanges_pass.
Proof.
  intros Hf Hd. unfold syncPendingChanges_pass, Date_now, setAppConfig,
    assign_lastSyncTime.
  repeat first
    [ apply keeps_ret
    | apply keeps_gets
    | by apply keeps_console_log
    | by apply keeps_processSyncQueue
    | by apply keeps_uploadUnsyncedData
    | apply keeps_getAppConfig
    | by apply keeps_set
    | apply keeps_bind; [|intros ?]
    | match goal with |- keeps _ (match ?c with ConfigObject _ => _ | _ => _ end) =>
        destruct c; [apply keeps_ret|apply keeps_ret|apply keeps_throw] end ].
Qed.

Lemma keeps_guarded_pass {B} (f : World → B) :
  ignores_io f → ignores_db f →
  keeps f (try_catch syncPendingChanges_pass on_sync_error).
Proof.
  intros Hf Hd. apply keeps_try_catch; [by apply keeps_syncPendingChanges_pass|].
  intros e. unfold on_sync_error.
  apply keeps_bind; [by apply keeps_console_log|intros _; apply keeps_ret].
Qed.

Lemma ignores_io_isSyncing : ignores_io isSyncing.
Proof. by repeat split. Qed.
Lemma ignores_io_todoStore : ignores_io todoStore.
Proof. by repeat split. Qed.
Lemma ignores_io_db : ignores_io db.
Proof. by repeat split. Qed.
Lemma ignores_db_isSyncing : ignores_db isSyncing.
Proof. done. Qed.
Lemma ignores_db_todoStore : ignores_db todoStore.
Proof. done. Qed.

(** ** Reading the persisted queue *)


(** ** Enqueueing and restarting *)

Lemma addToSyncQueue_run newId type table data w :
  addToSyncQueue newId type table data w =
  let action := enqueued (clock w) (mkEnqueue newId type table data) in
  let w1 := set_storage (<["sync_queue" :=
              JSON_stringify_queue (stored_queue w ++ [action])]> (storage w)) w in
  (Ok tt, set_console (console w1 ++ [LogActionAdded action]) w1).
Proof.
  unfold addToSyncQueue, Date_now, console_log. run.
  by rewrite SyncStorageService_addToSyncQueue_run.
Qed.

Lemma addToSyncQueue_stored e w :
  JSON_queue_faithful →
  let w' := snd (addToSyncQueue (e_newId e) (e_type e) (e_table e) (e_data e) w) in
  stored_queue w' = stored_queue w ++ [enqueued (clock w) e] ∧ clock w' = clock w.
Proof.
  intros Hj. rewrite addToSyncQueue_run. simpl. split; [|done].
  destruct e. apply (stored_queue_set _ w Hj).
Qed.

Lemma enqueue_all_run es w :
  JSON_queue_faithful →
  fst (enqueue_all es w) = Ok tt ∧
  stored_queue (snd (enqueue_all es w))
    = stored_queue w ++ (enqueued (clock w) <$> es) ∧
  clock (snd (enqueue_all es w)) = clock w.
Proof.
  intros Hj. unfold enqueue_all. rewrite for_of_run
    by (intros e w0; by rewrite addToSyncQueue_run).
  simpl. split; [done|]. revert w.
  induction es as [|e es IH]; intros w; simpl.
  - by rewrite app_nil_r.
  - destruct (addToSyncQueue_stored e w Hj) as [Hq Hc].
    destruct (IH (snd (addToSyncQueue (e_newId e) (e_type e) (e_table e) (e_data e) w)))
      as [IH1 IH2].
    rewrite IH1, IH2, Hq, Hc. by rewrite <- app_assoc.
Qed.

(** C5 (amended): intents enqueued through [syncService.addToSyncQueue]
    are written to the MMKV storage: after any sequence of such enqueues
    and a process restart, reading the queue back returns what was stored
    before followed by every enqueued intent, in enqueue order and each
    with [retries = 0]; the queue of the sync store is empty after the
    restart. *)
Theorem enqueued_intents_survive_restart es w :
  JSON_queue_faithful →
  let w' := restart (snd (enqueue_all es w)) in
  fst (enqueue_all es w) = Ok tt ∧
  getSyncQueue w' = (Ok (stored_queue w ++ (enqueued (clock w) <$> es)), w') ∧
  Forall (λ a, retries_or_0 a < 3) (enqueued (clock w) <$> es) ∧
  SyncStore.queue (syncStore w') = [].
Proof.
  intros Hj w'. destruct (enqueue_all_run es w Hj) as (Hok & Hq & _).
  split; [done|]. split; [|split; [|done]].
  - rewrite getSyncQueue_run. by rewrite <- Hq.
  - apply Forall_fmap, Forall_true. intros e. unfold retries_or_0. simpl. lia.
Qed.

(** ** Dispatch order *)

(** C7 (amended): one run of [processSyncQueue] sends exactly one request
    per stored intent, in the order of the stored queue and whatever the
    outcome of the earlier requests; and the stored queue is in enqueue
    order, since [addToSyncQueue] appends at its end. *)
Theorem dispatch_in_queue_order w :
  requests (snd (processSyncQueue w))
    = requests w ++ (request_of <$> stored_queue w) ∧
  (JSON_queue_faithful → ∀ e,
     stored_queue (snd (addToSyncQueue (e_newId e) (e_type e) (e_table e) (e_data e) w))
       = stored_queue w ++ [enqueued (clock w) e]).
Proof.
  split.
  - rewrite processSyncQueue_run. apply foldl_entry_requests.
  - intros Hj e. by apply addToSyncQueue_stored.
Qed.

(** ** Retries *)

Lemma rejected_entry_run action w :
  never_accepts → retries_or_0 action + 1 < 3 →
  processSyncQueue_entry action w = (Ok tt, snd (processAction action w)).
Proof.
  intros Hn Hr. rewrite processSyncQueue_entry_run. simpl.
  rewrite (processAction_never_accepted _ _ Hn).
  rewrite bool_decide_eq_false_2 by lia. done.
Qed.

Lemma processAction_console action w :
  ∃ l, console (snd (processAction action w)) = console w ++ l ∧
       (l = [] ∨ l = [rejection_log action]).
Proof.
  rewrite processAction_run.
  destruct (fetch _ (remote w)) as [[ok|] r]; simpl.
  - exists []. rewrite app_nil_r. auto.
  - eauto.
Qed.

Lemma rejected_queue_run q w :
  never_accepts →
  Forall (λ a, retries_or_0 a + 1 < 3) q →
  storage (foldl (λ w a, snd (processSyncQueue_entry a w)) w q) = storage w ∧
  (no_removal_warning (console w) →
   no_removal_warning (console (foldl (λ w a, snd (processSyncQueue_entry a w)) w q))).
Proof.
  intros Hn Hq. revert w. induction Hq as [|a q Ha Hq IH]; intros w; simpl; [done|].
  rewrite (rejected_entry_run _ _ Hn Ha). cbn [snd].
  destruct (IH (snd (processAction a w))) as [IH1 IH2].
  split.
  - rewrite IH1, processAction_run.
    by destruct (fetch _ (remote w)) as [[ok|] r].
  - intros Hw. apply IH2.
    destruct (processAction_console a w) as [l [Hc Hl]]. rewrite Hc.
    intros b Hin. apply elem_of_app in Hin as [Hin|Hin]; [by apply (Hw b)|].
    destruct Hl as [-> | ->].
    + by apply not_elem_of_nil in Hin.
    + apply list_elem_of_singleton in Hin. unfold rejection_log in Hin.
      by destruct (a_type a).
Qed.

(** C1 (what the code does): against a remote that accepts nothing, any
    number of runs of [processSyncQueue] leaves the persisted queue text
    as it was, with every intent and its stored [retries] in place, sends
    every stored intent again on every run, and never logs the removal of
    an intent. *)
Theorem rejected_intents_are_retried_forever n w :
  never_accepts →
  Forall (λ a, retries_or_0 a + 1 < 3) (stored_queue w) →
  let w' := snd (passes n w) in
  fst (passes n w) = Ok tt ∧
  storage w' = storage w ∧
  stored_queue w' = stored_queue w ∧
  requests w' = requests w ++ mjoin (replicate n (request_of <$> stored_queue w)) ∧
  (no_removal_warning (console w) → no_removal_warning (console w')).
Proof.
  intros Hn. revert w. induction n as [|n IH]; intros w Hq; simpl.
  - by rewrite app_nil_r.
  - unfold mbind, M_bind. rewrite processSyncQueue_run.
    set (w1 := foldl _ w (stored_queue w)).
    destruct (rejected_queue_run (stored_queue w) w Hn Hq) as [Hs Hc].
    fold w1 in Hs, Hc.
    assert (stored_queue w1 = stored_queue w) as Hsq
      by (unfold stored_queue; by rewrite Hs).
    destruct (IH w1) as (IH1 & IH2 & IH3 & IH4 & IH5); [by rewrite Hsq|].
    split; [done|]. split; [congruence|]. split; [congruence|].
    split; [|auto].
    rewrite IH4, Hsq. unfold w1. rewrite foldl_entry_requests.
    by rewrite <- app_assoc.
Qed.

(** ** Mutual exclusion *)

(** C2 (amended): a call of [syncPendingChanges] made without [forceSync]
    while a pass is in flight returns [false] at once, sends no request and
    leaves storage (hence the queue) as it is; a [forcSync] call with
    connectivity skips that check and behaves exactly as it would with no
    pass in flight. *)
Theorem busy_call_returns_false options w :
  (isSyncing w = true → default false (forceSync options) = false →
     syncPendingChanges options w
       = (Ok false, set_console (console w ++ [LogAlreadySyncing]) w)) ∧
  (isInternetReachable (network w) = Some true →
     forcSync w = forcSync (set_isSyncing false w)).
Proof.
  split.
  - intros Hs Hf. unfold syncPendingChanges, console_log. run.
    by rewrite Hs, Hf.
  - intros Hn. unfold forcSync, syncPendingChanges, hasInternetAccess. run.
    rewrite andb_false_r. cbv beta. by rewrite Hn.
Qed.

(** ** The [isSyncing] flag *)

Lemma keeps_try_finally {A B} (f : World → B) (m : M A) fin :
  keeps f m → keeps f fin → keeps f (try_finally m fin).
Proof.
  intros Hm Hf w. unfold try_finally. specialize (Hm w).
  destruct (m w) as [r w1]. specialize (Hf w1).
  destruct (fin w1) as [[[]|e] w2]; simpl in *; congruence.
Qed.

Lemma keeps_syncPendingChanges {B} (f : World → B) options :
  ignores_io f → ignores_db f → (∀ b w, f (set_isSyncing b w) = f w) →
  keeps f (syncPendingChanges options).
Proof.
  intros Hf Hd Hs. unfold syncPendingChanges, hasInternetAccess.
  apply keeps_bind; [apply keeps_gets|]. intros syncing.
  destruct (syncing && _).
  { apply keeps_bind; [by apply keeps_console_log|intros _; apply keeps_ret]. }
  apply keeps_bind; [apply keeps_gets|]. intros online.
  destruct (negb online).
  { apply keeps_bind; [by apply keeps_console_log|intros _; apply keeps_ret]. }
  apply keeps_bind; [by apply keeps_modify|]. intros _.
  apply keeps_try_finally; [by apply keeps_guarded_pass|by apply keeps_modify].
Qed.

Lemma guarded_pass_run w :
  try_catch syncPendingChanges_pass on_sync_error w =
  match syncPendingChanges_pass w with
  | (Ok b, w1) => (Ok b, w1)
  | (Throw e, w1) =>
      (Ok false, set_console (console w1 ++ [ErrorDuringSync e]) w1)
  end.
Proof.
  unfold try_catch. by destruct (syncPendingChanges_pass w) as [[b|e] w1].
Qed.


(** ** What a successful dispatch changes *)

Lemma uploadUnsyncedData_todo_db todo d w :
  db w = Some d →
  db (snd (uploadUnsyncedData_todo todo w)) =
  Some (if accepted (fst (fetch (upload_of todo) (remote w)))
        then {| users := users d; todos := mark_todo (todo_id todo) <$> todos d |}
        else d).
Proof.
  intros Hd. unfold uploadUnsyncedData_todo, uploadTodo, do_fetch, markAsSynced,
    require_db, console_log, upload_of. run.
  destruct (fetch _ (remote w)) as [[[]|] r]; simpl; by rewrite ?Hd.
Qed.

(** C4 (amended): when the dispatch of an intent is accepted, the loop body
    removes the intents with that id from the persisted queue and changes
    neither the durable store nor the todo store; no run of
    [processSyncQueue] changes the durable store, and no call of
    [syncPendingChanges] changes the todo store.  A row of the durable store
    gets [synced = true] in [uploadUnsyncedData], exactly when the upload of
    that row is itself accepted. *)
Theorem accepted_intent_is_dequeued action w :
  (JSON_queue_faithful →
   fst (processAction action w) = Ok true →
   let w' := snd (processSyncQueue_entry action w) in
   stored_queue w' = filter (λ a, a_id a ≠ a_id action) (stored_queue w) ∧
   db w' = db w ∧ todoStore w' = todoStore w) ∧
  db (snd (processSyncQueue w)) = db w ∧
  (∀ options, todoStore (snd (syncPendingChanges options w)) = todoStore w) ∧
  (∀ todo d, db w = Some d →
     db (snd (uploadUnsyncedData_todo todo w)) =
     Some (if accepted (fst (fetch (upload_of todo) (remote w)))
           then {| users := users d; todos := mark_todo (todo_id todo) <$> todos d |}
           else d)).
Proof.
  split; [|split; [|split]].
  - intros Hj Hok w'. split; [|split].
    + unfold w'. rewrite processSyncQueue_entry_run. simpl. rewrite Hok.
      rewrite removeFromSyncQueue_run. simpl.
      rewrite (stored_queue_set _ _ Hj). f_equal.
      unfold stored_queue. rewrite processAction_run.
      by destruct (fetch _ (remote w)) as [[ok|] r].
    + apply (keeps_processSyncQueue_entry db), ignores_io_db.
    + apply (keeps_processSyncQueue_entry todoStore), ignores_io_todoStore.
  - apply (keeps_processSyncQueue db), ignores_io_db.
  - intros options. apply (keeps_syncPendingChanges todoStore);
      [apply ignores_io_todoStore|apply ignores_db_todoStore|done].
  - intros todo d. apply uploadUnsyncedData_todo_db.
Qed.

End Props.
End SyncServiceProps.

(* ===================================================================== *)
(** * Runs on the scripted platform *)
(* ===================================================================== *)

Module Runs.
Import Entities SyncService SyncTrace Scripted SyncServiceProps.

Lemma undigits_digits p : undigits (digits p) = Some p.
Proof. induction p as [p IH|p IH|]; simpl; by rewrite ?IH. Qed.

Lemma read_print `{Countable A} (x : A) : read (print x) = Some x.
Proof. unfold read, print. rewrite undigits_digits. simpl. apply decode_encode. Qed.

Lemma scripted_faithful : @JSON_queue_faithful platform.
Proof. intros q. split; [done|apply read_print]. Qed.

Lemma unavailable_faithful : @JSON_queue_faithful unavailable.
Proof. intros q. split; [done|apply read_print]. Qed.

Lemma unavailable_never_accepts : @never_accepts unavailable.
Proof. by intros req r. Qed.

Lemma stored_queue_text `{Platform} q r d :
  JSON_stringify_queue = print → JSON_parse_queue = read →
  stored_queue (world (queue_text q) r d) = q.
Proof.
  intros Hs Hp. unfold stored_queue, world, queue_text. simpl.
  rewrite lookup_singleton_eq. destruct (decide _); [done|].
  by rewrite Hp, read_print.
Qed.

(** C1 (failing input): one CREATE intent with [retries = 0] in the
    persisted queue and a server that is down.  After five runs of
    [processSyncQueue] the intent has been sent five times and is still
    stored with [retries = 0]; no removal was logged. *)
Lemma rejected_intents_are_retried_forever_witness :
  let w := @world unavailable (queue_text [create_milk]) tt empty_db in
  let w' := snd (passes 5 w) in
  fst (passes 5 w) = Ok tt ∧
  storage w' = storage w ∧
  stored_queue w' = [create_milk] ∧
  requests w' = replicate 5 (request_of create_milk) ∧
  no_removal_warning (console w').
Proof.
  intros w w'.
  assert (@stored_queue unavailable w = [create_milk]) as Hq
    by by apply (@stored_queue_text unavailable).
  destruct (@rejected_intents_are_retried_forever unavailable 5 w
              unavailable_never_accepts) as (H1 & H2 & H3 & H4 & H5).
  - rewrite Hq. repeat constructor.
  - subst w'. split; [exact H1|]. split; [exact H2|].
    split; [by rewrite <- Hq|]. split; [by rewrite H4, Hq|].
    apply H5. intros a Hin. by apply not_elem_of_nil in Hin.
Defined.

(** C2, as stated, fails for a force-sync call: with a pass in flight
    ([isSyncing = true]), [forcSync] returns [true], sends the queued
    intent to the remote and empties the persisted queue; it also leaves
    the shared flag at [false] when it ends. *)
Lemma forced_call_runs_while_busy :
  let w := set_isSyncing true
             (world (queue_text [create_milk]) [Response true] empty_db) in
  isSyncing w = true ∧
  stored_queue w = [create_milk] ∧
  fst (forcSync w) = Ok true ∧
  requests (snd (forcSync w)) = [request_of create_milk] ∧
  stored_queue (snd (forcSync w)) = [] ∧
  isSyncing (snd (forcSync w)) = false.
Proof. vm_compute. by repeat split. Qed.

Lemma busy_call_returns_false_witness :
  let w := set_isSyncing true
             (world (queue_text [create_milk]) [Response true] empty_db) in
  syncPendingChanges noOptions w
    = (Ok false, set_console (console w ++ [LogAlreadySyncing]) w) ∧
  forcSync w = forcSync (set_isSyncing false w).
Proof.
  intros w. split.
  - by apply (proj1 (busy_call_returns_false noOptions w)).
  - by apply (proj2 (busy_call_returns_false noOptions w)).
Defined.

(** C4, as stated, fails: the CREATE intent for the unsynced row [temp_1]
    is accepted by the remote and leaves the queue, yet the row still has
    [synced = false] in the durable store (the separate upload of the row
    was refused) and the todo store still shows the optimistic entry under
    its temp id. *)
Lemma accepted_intent_leaves_row_unsynced :
  let optimistic :=
    snd (TodoStore.optimisticAdd "temp_1" 900 900 milk_data TodoStore.initialState) in
  let w := with_todoStore optimistic
             (world (queue_text [create_milk]) [Response true; Response false]
                    {| users := []; todos := [milk_row] |}) in
  let w' := snd (syncPendingChanges noOptions w) in
  fst (syncPendingChanges noOptions w) = Ok true ∧
  stored_queue w = [create_milk] ∧
  stored_queue w' = [] ∧
  db w' = Some {| users := []; todos := [milk_row] |} ∧
  todo_synced milk_row = false ∧
  todoStore w' = optimistic ∧
  TodoStore.t_id <$> TodoStore.todos (todoStore w') = ["temp_1"].
Proof. vm_compute. by repeat split. Qed.

Lemma accepted_intent_is_dequeued_witness :
  let w := world (queue_text [create_milk; update_milk]) [Response true]
                 {| users := []; todos := [milk_row] |} in
  let w' := snd (processSyncQueue_entry create_milk w) in
  (stored_queue w' = [update_milk] ∧ db w' = db w ∧ todoStore w' = todoStore w) ∧
  db (snd (uploadUnsyncedData_todo milk_row w))
    = Some {| users := []; todos := [mark_todo "temp_1" milk_row] |}.
Proof.
  intros w w'.
  destruct (accepted_intent_is_dequeued create_milk w) as (Hdeq & _ & _ & Hup).
  split.
  - destruct (Hdeq scripted_faithful) as (Hq & Hd & Ht); [reflexivity|].
    split; [|by split]. subst w'. rewrite Hq.
    unfold w. rewrite stored_queue_text by done. reflexivity.
  - exact (Hup milk_row _ eq_refl).
Defined.

(** C5, as stated, fails for the sync store: an intent added with
    [addToQueue] lives in the store's memory only and is gone after a
    restart. *)
Lemma sync_store_queue_lost_on_restart :
  let data := {| SyncStore.ad_type := CREATE; SyncStore.ad_table := "todos";
                 SyncStore.ad_data := milk; SyncStore.ad_retries := None |} in
  let s := snd (SyncStore.addToQueue "a1" 900 data SyncStore.initialState) in
  SyncStore.queue s = [create_milk] ∧
  SyncStore.queue (SyncStore.restart s) = [].
Proof. by split. Qed.

Lemma enqueued_intents_survive_restart_witness :
  let es := [mkEnqueue "a1" CREATE "todos" milk;
             mkEnqueue "a2" UPDATE "todos" milk] in
  let w := world ∅ [] empty_db in
  let w' := restart (snd (enqueue_all es w)) in
  fst (enqueue_all es w) = Ok tt ∧
  getSyncQueue w' = (Ok (stored_queue w ++ (enqueued (clock w) <$> es)), w') ∧
  Forall (λ a, retries_or_0 a < 3) (enqueued (clock w) <$> es) ∧
  SyncStore.queue (syncStore w') = [].
Proof.
  intros es w. apply (enqueued_intents_survive_restart es w scripted_faithful).
Defined.

(** C7, as stated, fails: the CREATE is refused by the remote, and the
    UPDATE for the same temp id is sent right after it and accepted. *)
Lemma update_sent_after_refused_create :
  let w := world (queue_text [create_milk; update_milk])
                 [Response false; Response true] empty_db in
  let w' := snd (processSyncQueue w) in
  fst (processAction create_milk w) = Ok false ∧
  requests w' = [request_of create_milk; request_of update_milk] ∧
  stored_queue w' = [create_milk].
Proof. vm_compute. by repeat split. Qed.

Lemma dispatch_in_queue_order_witness :
  let w := world (queue_text [create_milk]) [] empty_db in
  let e := mkEnqueue "a2" UPDATE "todos" milk in
  requests (snd (processSyncQueue w)) = [request_of create_milk] ∧
  stored_queue (snd (addToSyncQueue "a2" UPDATE "todos" milk w))
    = [create_milk; enqueued 1000 e].
Proof.
  intros w e. destruct (dispatch_in_queue_order w) as [Hr Hq].
  specialize (Hq scripted_faithful e).
  unfold w in Hr, Hq. rewrite stored_queue_text in Hr, Hq by done.
  split; [exact Hr|exact Hq].
Defined.




End Runs.

(* ===================================================================== *)
(** * Further properties of the todo store *)
(* ===================================================================== *)

Module TodoStoreMore.
Import TodoStore TodoTrace TodoStoreProps.

(** ** [calculateStats] *)

Lemma tally_nonneg f l : 0 ≤ tally f l.
Proof. induction l as [|t l IH]; simpl; [done|]. destruct (f t); lia. Qed.

Lemma tally_split f l :
  tally f l + tally (λ t, negb (f t)) l = Z.of_nat (length l).
Proof.
  induction l as [|t l IH]; simpl; [done|]. destruct (f t); simpl; lia.
Qed.

Lemma tally_le f g l : (∀ t, f t = true → g t = true) → tally f l ≤ tally g l.
Proof.
  intros Hfg. induction l as [|t l IH]; simpl; [done|].
  specialize (Hfg t). destruct (f t), (g t); try lia.
Qed.

(** X1: [calculateStats] counts every todo once as completed or as pending,
    and the overdue ones among the pending. *)
Theorem calculateStats_bounds now l :
  let st := calculateStats now l in
  total st = Z.of_nat (length l) ∧
  total st = completed st + pending st ∧
  0 ≤ completed st ∧
  0 ≤ overdue st ≤ pending st.
Proof.
  rewrite calculateStats_counts. simpl.
  pose proof (tally_split is_completed l).
  pose proof (tally_nonneg is_completed l).
  pose proof (tally_nonneg (λ t, negb (is_completed t) && is_overdue now t) l).
  pose proof (tally_le (λ t, negb (is_completed t) && is_overdue now t)
                       (λ t, negb (is_completed t)) l) as Hle.
  repeat split; try lia. apply Hle. intros t Ht.
  by apply andb_true_iff in Ht as [? _].
Qed.

(** ** The data actions keep the counters *)

Lemma recomputed_agree now now' l s :
  counters_agree now (set_stats (λ _, calculateStats now' l) (set_todos (λ _, l) s)).
Proof. unfold counters_agree. rewrite !calculateStats_counts. by simpl. Qed.

Lemma apply_data_agree now op s :
  completed_defined (todos s) →
  completed_typed op = true →
  counters_agree now s → counters_agree now (apply_data op s).
Proof.
  intros Hd Hop Hs. destruct op as [now' l|t|i u|i|now']; simpl.
  - apply recomputed_agree.
  - by apply account_agree.
  - unfold updateTodo.
    destruct (findIndex i (todos s)) as [n|] eqn:Hf; [|done].
    destruct (todos s !! n) as [old|] eqn:Hl; [|done].
    simpl in Hop. apply bool_decide_eq_true in Hop.
    apply replace_agree; try done.
    eapply (proj1 (list.Forall_forall _ _) Hd), list_elem_of_lookup_2, Hl.
  - unfold deleteTodo.
    destruct (findIndex i (todos s)) as [n|] eqn:Hf; [|done].
    destruct (todos s !! n) as [t|] eqn:Hl; [|done].
    by apply forget_agree.
  - unfold updateStats, counters_agree. rewrite !calculateStats_counts. by simpl.
Qed.

Lemma apply_data_defined op s :
  completed_defined (todos s) →
  completed_typed op = true →
  completed_defined (todos (apply_data op s)).
Proof.
  intros Hd Hop. destruct op as [now' l|t|i u|i|now']; simpl in *.
  - by apply bool_decide_eq_true in Hop.
  - constructor; [by apply bool_decide_eq_true in Hop|done].
  - unfold updateTodo.
    destruct (findIndex i (todos s)) as [n|] eqn:Hf; [|done].
    destruct (todos s !! n) as [old|] eqn:Hl; [|done]. simpl.
    apply bool_decide_eq_true in Hop.
    apply completed_defined_insert; [done|]. simpl.
    assert (is_Some (t_completed old)) as Hold
      by (eapply (proj1 (list.Forall_forall _ _) Hd), list_elem_of_lookup_2, Hl).
    destruct (u_completed u) as [[c|]|]; simpl; [by eexists|done|done].
  - unfold deleteTodo.
    destruct (findIndex i (todos s)) as [n|] eqn:Hf; [|done].
    destruct (todos s !! n) as [t|] eqn:Hl; [|done]. simpl.
    by apply completed_defined_delete.
  - done.
Qed.

(** X2: Over every sequence of [setTodos], [addTodo], [updateTodo],
    [deleteTodo] and [updateStats] that starts from todos with a boolean
    [completed], in which the todos handed to [setTodos] and [addTodo] have
    one and no update carries [completed: undefined], the maintained
    [total], [completed] and [pending] stay equal to their recomputation
    from the list, and every todo still has a boolean [completed]. *)
Theorem data_actions_keep_counters now ops s :
  counters_agree now s →
  completed_defined (todos s) →
  Forall (λ op, completed_typed op = true) ops →
  counters_agree now (run_data ops s) ∧
  completed_defined (todos (run_data ops s)).
Proof.
  revert s. induction ops as [|op ops IH]; intros s Hs Hd Hops; [done|].
  apply list.Forall_cons in Hops as [Hop Hops].
  apply IH; [by apply apply_data_agree|by apply apply_data_defined|done].
Qed.

Lemma data_actions_keep_counters_witness :
  let t := {| t_id := "7"; t_user_id := "u1"; t_title := "Buy milk";
              t_description := None; t_completed := Some false; t_priority := medium;
              t_due_date := None; t_created_at := 1; t_updated_at := 1;
              t_synced := true; _isOptimistic := None; _originalId := None |} in
  let u := {| u_id := None; u_user_id := None; u_title := None;
              u_description := None; u_completed := Some (Some true);
              u_priority := None; u_due_date := None; u_created_at := None;
              u_updated_at := None; u_synced := None |} in
  let ops := [AddTodo t; UpdateTodo "7" u; AddTodo t; DeleteTodo "7";
              SetTodos 10 [t; t]; UpdateTodo "7" u] in
  counters_agree 10 (run_data ops initialState) ∧
  completed_defined (todos (run_data ops initialState)).
Proof.
  intros t u ops. apply (data_actions_keep_counters 10).
  - by repeat split.
  - apply Forall_nil_2.
  - by repeat constructor.
Defined.

(** The stats leave the recomputation when [updateTodo] is given
    [completed: undefined] for a completed todo: the entry becomes
    falsy, the counters stay. *)
Lemma updateTodo_undefined_diverges :
  let t := {| t_id := "7"; t_user_id := "u1"; t_title := "Buy milk";
              t_description := None; t_completed := Some true; t_priority := medium;
              t_due_date := None; t_created_at := 1; t_updated_at := 1;
              t_synced := true; _isOptimistic := None; _originalId := None |} in
  let u := {| u_id := None; u_user_id := None; u_title := None;
              u_description := None; u_completed := Some None;
              u_priority := None; u_due_date := None; u_created_at := None;
              u_updated_at := None; u_synced := None |} in
  let s := run_data [AddTodo t; UpdateTodo "7" u] initialState in
  completed (stats s) = 1 ∧ completed (calculateStats 10 (todos s)) = 0.
Proof. by split. Qed.

(** ** Undoing an insertion *)

Lemma findIndex_head t l : findIndex (t_id t) (t :: l) = Some 0%nat.
Proof. unfold findIndex. simpl. by rewrite decide_True. Qed.

Lemma forget_account t st : forget t (account t st) = st.
Proof.
  unfold forget, account, add_total, add_completed, add_pending.
  destruct st, (is_completed t); simpl; f_equal; lia.
Qed.

Lemma account_forget t st : account t (forget t st) = st.
Proof.
  unfold forget, account, add_total, add_completed, add_pending.
  destruct st, (is_completed t); simpl; f_equal; lia.
Qed.

(** X3: Removing a todo right after it was inserted gives back the state as
    it was, list and stats alike, also when other todos carry the same
    id: [revertOptimistic] undoes [optimisticAdd], and [deleteTodo] and
    [optimisticDelete] undo [addTodo]. *)
Theorem insertion_is_undone s :
  (∀ tempId t1 t2 d,
     revertOptimistic tempId (snd (optimisticAdd tempId t1 t2 d s)) = s) ∧
  (∀ t, deleteTodo (t_id t) (addTodo t s) = s) ∧
  (∀ t, optimisticDelete (t_id t) (addTodo t s) = s).
Proof.
  assert (∀ t, set_stats (forget t)
                 (set_todos (delete 0%nat) (set_stats (account t) (set_todos (cons t) s)))
               = s) as Hundo.
  { intros t. destruct s. unfold set_stats, set_todos. simpl.
    by rewrite forget_account. }
  split; [|split].
  - intros tempId t1 t2 d. unfold revertOptimistic, optimisticAdd. simpl.
    pose proof (findIndex_head (optimisticTodo tempId d t1 t2) (todos s)) as Hf.
    simpl in Hf. rewrite Hf. simpl. apply Hundo.
  - intros t. unfold deleteTodo, addTodo. simpl.
    rewrite findIndex_head. simpl. apply Hundo.
  - intros t. unfold optimisticDelete, addTodo. simpl.
    rewrite findIndex_head. simpl. apply Hundo.
Qed.

(** ** Confirming an optimistic insertion *)

Lemma getTodoById_head t l s :
  todos s = t :: l → getTodoById (t_id t) s = Some t.
Proof. intros Hl. unfold getTodoById. rewrite Hl. simpl. by rewrite decide_True. Qed.

Lemma getTodoById_None i s : getTodoById i s = None ↔ i ∉ t_id <$> todos s.
Proof.
  rewrite <- findIndex_None. unfold getTodoById, findIndex.
  by destruct (list_find _ (todos s)).
Qed.

(** X4: [confirmOptimistic] right after [optimisticAdd] puts the authoritative
    todo where the optimistic one stood, at the head of the list, and
    leaves the stats of the insertion; the authoritative todo is found
    under its own id, and the temp id is no longer found when no other
    todo carried it and the authoritative id differs from it. *)
Theorem confirm_replaces_temp tempId t1 t2 d realTodo s :
  let s1 := snd (optimisticAdd tempId t1 t2 d s) in
  let s2 := confirmOptimistic tempId realTodo s1 in
  todos s2 = realTodo :: todos s ∧
  stats s2 = stats s1 ∧
  getTodoById (t_id realTodo) s2 = Some realTodo ∧
  (tempId ∉ t_id <$> todos s → t_id realTodo ≠ tempId →
   getTodoById tempId s2 = None).
Proof.
  intros s1 s2.
  assert (todos s2 = realTodo :: todos s) as Hl.
  { unfold s2, s1, confirmOptimistic, optimisticAdd. simpl.
    pose proof (findIndex_head (optimisticTodo tempId d t1 t2) (todos s)) as Hf.
    simpl in Hf. by rewrite Hf. }
  split; [done|]. split; [|split].
  - unfold s2, s1, confirmOptimistic, optimisticAdd. simpl.
    pose proof (findIndex_head (optimisticTodo tempId d t1 t2) (todos s)) as Hf.
    simpl in Hf. by rewrite Hf.
  - by apply (getTodoById_head _ (todos s)).
  - intros Hn Hr. apply getTodoById_None. rewrite Hl, fmap_cons.
    apply not_elem_of_cons. split; [congruence|done].
Qed.

Lemma confirm_replaces_temp_witness :
  let d := {| d_user_id := "u1"; d_title := "Buy milk"; d_description := None;
              d_completed := false; d_priority := medium; d_due_date := None |} in
  let r := {| t_id := "42"; t_user_id := "u1"; t_title := "Buy milk";
              t_description := None; t_completed := Some false; t_priority := medium;
              t_due_date := None; t_created_at := 1; t_updated_at := 2;
              t_synced := true; _isOptimistic := None; _originalId := None |} in
  let s2 := confirmOptimistic "temp_1" r
              (snd (optimisticAdd "temp_1" 1 1 d initialState)) in
  todos s2 = [r] ∧ getTodoById "42" s2 = Some r ∧ getTodoById "temp_1" s2 = None.
Proof.
  intros d r s2.
  destruct (confirm_replaces_temp "temp_1" 1 1 d r initialState)
    as (Hl & _ & Hr & Ht).
  split; [exact Hl|]. split; [exact Hr|].
  apply Ht; [apply not_elem_of_nil|discriminate].
Defined.

(** ** Rolling back an optimistic delete *)

(** X5: Re-adding the todo that [optimisticDelete] removed (what the delete
    hook does when the server refuses) restores the stats exactly and the
    same todos up to order: the restored todo comes back at the head of
    the list, not at its old position. *)
Theorem delete_rollback_restores i t s :
  getTodoById i s = Some t →
  let s' := addTodo t (optimisticDelete i s) in
  stats s' = stats s ∧
  todos s' ≡ₚ todos s ∧
  ∃ n, todos s !! n = Some t ∧ todos s' = t :: delete n (todos s).
Proof.
  unfold getTodoById. intros Hg.
  apply fmap_Some in Hg as ([n t'] & Hfind & Ht). simpl in Ht. subst t'.
  pose proof Hfind as Hfind'. apply list_find_Some in Hfind' as (Hl & _ & _).
  set (s' := addTodo t (optimisticDelete i s)).
  assert (s' = set_stats (account t)
                 (set_todos (cons t) (set_stats (forget t) (set_todos (delete n) s))))
    as Hs'.
  { unfold s', optimisticDelete, findIndex. rewrite Hfind. simpl. by rewrite Hl. }
  rewrite Hs'. simpl. split; [apply account_forget|]. split.
  - symmetry. by apply delete_Permutation.
  - eauto.
Qed.

Lemma delete_rollback_restores_witness :
  let a := {| t_id := "1"; t_user_id := "u1"; t_title := "Buy milk";
              t_description := None; t_completed := Some false; t_priority := medium;
              t_due_date := None; t_created_at := 1; t_updated_at := 1;
              t_synced := true; _isOptimistic := None; _originalId := None |} in
  let b := {| t_id := "2"; t_user_id := "u1"; t_title := "Walk dog";
              t_description := None; t_completed := Some true; t_priority := low;
              t_due_date := None; t_created_at := 2; t_updated_at := 2;
              t_synced := true; _isOptimistic := None; _originalId := None |} in
  let s := addTodo a (addTodo b initialState) in
  let s' := addTodo b (optimisticDelete "2" s) in
  stats s' = stats s ∧ todos s' ≡ₚ todos s ∧ todos s = [a; b] ∧ todos s' = [b; a].
Proof.
  intros a b s s'.
  destruct (delete_rollback_restores "2" b s) as (Hst & Hp & _); [reflexivity|].
  split; [exact Hst|]. split; [exact Hp|]. by split.
Defined.

(** ** Optimistic updates remember the original id *)

Lemma optimisticUpdate_at i u s n old :
  findIndex i (todos s) = Some n → todos s !! n = Some old →
  todos (optimisticUpdate i u s) = <[n := merge_optimistic old u]> (todos s).
Proof. intros Hf Hl. unfold optimisticUpdate. by rewrite Hf, Hl. Qed.

(** X6: Two optimistic updates of the same todo, the first of which does not
    change its id: the entry stays at its index, is flagged optimistic,
    and [_originalId] after the second update is what the first recorded
    (the todo's own id if it was not tracked before); the list keeps its
    length. *)
Theorem optimisticUpdate_keeps_originalId i u1 u2 s n old :
  findIndex i (todos s) = Some n → todos s !! n = Some old →
  u_id u1 = None →
  let s1 := optimisticUpdate i u1 s in
  let s2 := optimisticUpdate i u2 s1 in
  ∃ e1 e2,
    todos s1 !! n = Some e1 ∧ todos s2 !! n = Some e2 ∧
    _isOptimistic e2 = Some true ∧
    _originalId e2 = _originalId e1 ∧
    (_originalId old = None → _originalId e1 = Some i) ∧
    length (todos s2) = length (todos s).
Proof.
  intros Hf Hl Hu s1 s2.
  destruct (findIndex_Some _ _ _ Hf) as (old' & Hl' & Hid & Hb).
  assert (old' = old) as -> by congruence.
  pose proof (lookup_lt_Some _ _ _ Hl) as Hlt.
  assert (todos s1 = <[n := merge_optimistic old u1]> (todos s)) as H1
    by by apply optimisticUpdate_at.
  assert (todos s1 !! n = Some (merge_optimistic old u1)) as Hl1
    by (rewrite H1; by apply list_lookup_insert_eq).
  assert (findIndex i (todos s1) = Some n) as Hf1.
  { rewrite H1. apply findIndex_insert_same; [done|].
    simpl. by rewrite Hu. }
  assert (todos s2 = <[n := merge_optimistic (merge_optimistic old u1) u2]> (todos s1))
    as H2 by by apply optimisticUpdate_at.
  exists (merge_optimistic old u1), (merge_optimistic (merge_optimistic old u1) u2).
  split; [done|]. split.
  { rewrite H2. apply list_lookup_insert_eq. by rewrite H1, length_insert. }
  split; [done|]. split; [|split].
  - simpl. rewrite Hu. simpl.
    destruct (_originalId old) as [o|]; repeat case_decide; congruence.
  - intros Hnone. simpl. by rewrite Hnone, Hid.
  - by rewrite H2, H1, !length_insert.
Qed.

Lemma optimisticUpdate_keeps_originalId_witness :
  let a := {| t_id := "1"; t_user_id := "u1"; t_title := "Buy milk";
              t_description := None; t_completed := Some false; t_priority := medium;
              t_due_date := None; t_created_at := 1; t_updated_at := 1;
              t_synced := true; _isOptimistic := None; _originalId := None |} in
  let u := {| u_id := None; u_user_id := None; u_title := Some "Buy oat milk";
              u_description := None; u_completed := None;
              u_priority := None; u_due_date := None; u_created_at := None;
              u_updated_at := None; u_synced := None |} in
  let s := addTodo a initialState in
  ∃ e1 e2,
    todos (optimisticUpdate "1" u s) !! 0%nat = Some e1 ∧
    todos (optimisticUpdate "1" u (optimisticUpdate "1" u s)) !! 0%nat = Some e2 ∧
    _isOptimistic e2 = Some true ∧
    _originalId e2 = _originalId e1 ∧
    (_originalId a = None → _originalId e1 = Some "1") ∧
    length (todos (optimisticUpdate "1" u (optimisticUpdate "1" u s))) = length (todos s).
Proof.
  intros a u s.
  apply (optimisticUpdate_keeps_originalId "1" u u s 0 a); reflexivity.
Defined.

(** ** [filterTodos] *)

Section Filters.
Variable toLowerCase : string → string.
Variable includes : string → string → bool.

Lemma filter_all {A} (P : A → Prop) `{!∀ x, Decision (P x)} (l : list A) :
  (∀ x, P x) → filter P l = l.
Proof.
  intros HP. induction l as [|x l IH]; [done|].
  by rewrite filter_cons_True, IH.
Qed.

(** One criterion, switched on or off, is a filter by a boolean test. *)
Lemma optional_filter {A} (on : bool) (P : A → Prop) `{!∀ x, Decision (P x)}
    (c : A → bool) (l : list A) :
  (∀ x, P x ↔ c x = true) →
  (if on then filter P l else l)
  = filter (λ x, (if on then c x else true) = true) l.
Proof.
  intros Hc. destruct on.
  - by apply list_filter_iff.
  - symmetry. by apply filter_all.
Qed.

Lemma criteria_as_filter (l : list OptimisticTodo) f :
  filterTodos toLowerCase includes l f
  = paginate f (filter (λ t, matches toLowerCase includes f t = true) l).
Proof.
  unfold filterTodos. cbv zeta.
  set (c1 := λ t, match f_completed f with
                  | Some c => bool_decide (t_completed t = Some c) | None => true end).
  set (c2 := λ t, match f_priority f with
                  | Some p => bool_decide (t_priority t = p) | None => true end).
  set (c3 := λ t, match f_user_id f with
                  | Some u => if nonempty u then bool_decide (t_user_id t = u) else true
                  | None => true end).
  set (c4 := λ t, match f_search f with
                  | Some q => if nonempty q
                              then search_hit toLowerCase includes (toLowerCase q) t
                              else true
                  | None => true end).
  set (c5 := λ t, match f_due_date_from f with
                  | Some from => if nonzero from then due_from from t else true
                  | None => true end).
  set (c6 := λ t, match f_due_date_to f with
                  | Some to => if nonzero to then due_to to t else true
                  | None => true end).
  assert (∀ L : list OptimisticTodo,
            match f_completed f with
            | Some c => filter (λ todo, t_completed todo = Some c) L | None => L end
            = filter (λ t, c1 t = true) L) as H1.
  { intros L. unfold c1. destruct (f_completed f) as [c|].
    - apply list_filter_iff. intros x. by rewrite bool_decide_eq_true.
    - symmetry. by apply filter_all. }
  assert (∀ L : list OptimisticTodo,
            match f_priority f with
            | Some p => filter (λ todo, t_priority todo = p) L | None => L end
            = filter (λ t, c2 t = true) L) as H2.
  { intros L. unfold c2. destruct (f_priority f) as [p|].
    - apply list_filter_iff. intros x. by rewrite bool_decide_eq_true.
    - symmetry. by apply filter_all. }
  assert (∀ L : list OptimisticTodo,
            match f_user_id f with
            | Some u => if nonempty u then filter (λ todo, t_user_id todo = u) L else L
            | None => L end
            = filter (λ t, c3 t = true) L) as H3.
  { intros L. unfold c3. destruct (f_user_id f) as [u|].
    - apply optional_filter. intros x. by rewrite bool_decide_eq_true.
    - symmetry. by apply filter_all. }
  assert (∀ L : list OptimisticTodo,
            match f_search f with
            | Some q =>
                if nonempty q
                then filter (λ todo, search_hit toLowerCase includes
                                       (toLowerCase q) todo = true) L
                else L
            | None => L end
            = filter (λ t, c4 t = true) L) as H4.
  { intros L. unfold c4. destruct (f_search f) as [q|].
    - by apply optional_filter.
    - symmetry. by apply filter_all. }
  assert (∀ L : list OptimisticTodo,
            match f_due_date_from f with
            | Some from =>
                if nonzero from then filter (λ todo, due_from from todo = true) L
                else L
            | None => L end
            = filter (λ t, c5 t = true) L) as H5.
  { intros L. unfold c5. destruct (f_due_date_from f) as [from|].
    - by apply optional_filter.
    - symmetry. by apply filter_all. }
  assert (∀ L : list OptimisticTodo,
            match f_due_date_to f with
            | Some to =>
                if nonzero to then filter (λ todo, due_to to todo = true) L
                else L
            | None => L end
            = filter (λ t, c6 t = true) L) as H6.
  { intros L. unfold c6. destruct (f_due_date_to f) as [to|].
    - by apply optional_filter.
    - symmetry. by apply filter_all. }
  rewrite H1, H2, H3, H4, H5, H6. rewrite !list_filter_filter.
  assert (filter (λ a, ((((c6 a = true ∧ c5 a = true) ∧ c4 a = true) ∧ c3 a = true)
                        ∧ c2 a = true) ∧ c1 a = true) l
          = filter (λ t, matches toLowerCase includes f t = true) l)
    as ->; [|done].
  apply list_filter_iff. intros x. unfold matches. fold (c1 x) (c2 x) (c3 x).
  rewrite !andb_true_iff. tauto.
Qed.

Lemma paginate_sublist {A} f (l : list A) : paginate f l `sublist_of` l.
Proof.
  unfold paginate, slice_from, slice_upto.
  destruct (nonzero (f_offset f)), (nonzero (f_limit f)); try done.
  - etrans; [apply sublist_take|apply sublist_drop].
  - apply sublist_drop.
  - apply sublist_take.
Qed.

(** X7: [filterTodos] returns the page cut by [offset] and [limit] out of the
    todos that pass every active criterion, in their original order: the
    result is a sub-list of the input, each of its todos passes all the
    criteria, and with a positive [limit] it holds at most [limit] todos. *)
Theorem filterTodos_page_of_matches (l : list OptimisticTodo) f :
  let r := filterTodos toLowerCase includes l f in
  r = paginate f (filter (λ t, matches toLowerCase includes f t = true) l) ∧
  r `sublist_of` l ∧
  (∀ t, t ∈ r → matches toLowerCase includes f t = true) ∧
  (0 < f_limit f → Z.of_nat (length r) ≤ f_limit f).
Proof.
  intros r. pose proof (criteria_as_filter l f) as Hr. fold r in Hr.
  split; [done|]. split; [|split].
  - rewrite Hr. etrans; [apply paginate_sublist|apply sublist_filter].
  - intros t Ht. rewrite Hr in Ht.
    assert (t ∈ filter (λ t, matches toLowerCase includes f t = true) l) as Hin.
    { eapply elem_of_sublist; [exact Ht|apply paginate_sublist]. }
    by apply list_elem_of_filter in Hin as [? _].
  - intros Hpos. rewrite Hr. unfold paginate, slice_upto.
    assert (nonzero (f_limit f) = true) as ->
      by (unfold nonzero; apply negb_true_iff, Z.eqb_neq; lia).
    assert ((f_limit f <? 0) = false) as -> by (apply Z.ltb_ge; lia).
    rewrite length_take. lia.
Qed.

End Filters.

Lemma filterTodos_page_of_matches_witness :
  let a := {| t_id := "1"; t_user_id := "u1"; t_title := "Buy milk";
              t_description := None; t_completed := Some false; t_priority := medium;
              t_due_date := None; t_created_at := 1; t_updated_at := 1;
              t_synced := true; _isOptimistic := None; _originalId := None |} in
  let b := {| t_id := "2"; t_user_id := "u1"; t_title := "Walk dog";
              t_description := None; t_completed := Some true; t_priority := low;
              t_due_date := None; t_created_at := 2; t_updated_at := 2;
              t_synced := true; _isOptimistic := None; _originalId := None |} in
  let f := {| f_completed := Some false; f_priority := None; f_user_id := None;
              f_search := None; f_due_date_from := None; f_due_date_to := None;
              f_limit := 50; f_offset := 0 |} in
  let includes := λ s sub, bool_decide (is_Some (String.index 0 sub s)) in
  let r := filterTodos id includes [a; b; a] f in
  r = [a; a] ∧ Z.of_nat (length r) ≤ 50.
Proof.
  intros a b f includes r.
  destruct (filterTodos_page_of_matches id includes [a; b; a] f)
    as (Hr & _ & _ & Hlen).
  split; [exact Hr|]. apply Hlen. reflexivity.
Defined.

End TodoStoreMore.

(* ===================================================================== *)
(** * Further properties of the sync store *)
(* ===================================================================== *)

Module SyncStoreMore.
Import Entities SyncStore.

(** ** [pending_actions] *)

Lemma apply_queue_mirrors op s :
  (∀ actionId, op ≠ Retry actionId) ∨ pending_mirrors_queue s →
  pending_mirrors_queue (apply_queue op s).
Proof.
  unfold pending_mirrors_queue.
  destruct op as [newId now d|actionId| |actionId]; simpl; intros Hs.
  - rewrite length_app. simpl. lia.
  - done.
  - done.
  - destruct Hs as [Hs|Hs]; [by destruct (Hs actionId)|].
    by rewrite length_map.
Qed.

(** X8: Over every sequence of [addToQueue], [removeFromQueue], [clearQueue]
    and [incrementRetries], [status.pending_actions] equals the length of
    the queue. *)
Theorem pending_actions_mirrors_queue ops s :
  pending_mirrors_queue s → pending_mirrors_queue (run_queue ops s).
Proof.
  revert s. induction ops as [|op ops IH]; intros s Hs; [done|].
  apply IH, apply_queue_mirrors. by right.
Qed.

Lemma pending_actions_mirrors_queue_witness :
  let d := {| ad_type := CREATE; ad_table := "todos";
              ad_data := {| data_id := None; data_fields := "title: Buy milk" |};
              ad_retries := None |} in
  pending_mirrors_queue
    (run_queue [Enqueue "a1" 1 d; Enqueue "a2" 2 d; Retry "a1"; Remove "a2"]
               initialState).
Proof.
  intros d. by apply pending_actions_mirrors_queue.
Defined.

(** ** Queue statistics *)

Lemma apply_queue_nonneg op s :
  retries_nonneg s → retries_nonneg (apply_queue op s).
Proof.
  unfold retries_nonneg.
  destruct op as [newId now d|actionId| |actionId]; simpl; intros Hs.
  - apply Forall_app. split; [done|]. by repeat constructor.
  - apply list.Forall_forall. intros a [_ Hin]%list_elem_of_filter.
    rewrite list.Forall_forall in Hs. by apply Hs.
  - constructor.
  - apply Forall_fmap. eapply Forall_impl; [|exact Hs].
    intros a Ha. simpl. destruct (decide _); [|done].
    unfold retries_or_0, set_retries. simpl. unfold retries_or_0 in Ha. lia.
Qed.

Lemma run_queue_nonneg ops s : retries_nonneg s → retries_nonneg (run_queue ops s).
Proof.
  revert s. induction ops as [|op ops IH]; intros s Hs; [done|].
  by apply IH, apply_queue_nonneg.
Qed.

Lemma length_three_way (q : list SyncAction) :
  Forall (λ a, 0 ≤ retries_or_0 a) q →
  length q =
  (length (filter (λ a, (retries_or_0 a = 0)%Z) q)
   + length (filter (λ a, (retries_or_0 a >= 3)%Z) q)
   + length (filter (λ a, let r := retries_or_0 a in (r > 0 ∧ r < 3)%Z) q))%nat.
Proof.
  induction 1 as [|a q Ha Hq IH]; [done|].
  rewrite !filter_cons. cbv zeta in *. repeat case_decide; simpl; lia.
Qed.

Lemma length_two_way (q : list SyncAction) :
  length q =
  (length (filter (λ a, (retries_or_0 a < 3)%Z) q)
   + length (filter (λ a, (retries_or_0 a >= 3)%Z) q))%nat.
Proof.
  induction q as [|a q IH]; [done|].
  rewrite !filter_cons. simpl. repeat case_decide; simpl; lia.
Qed.

(** X9: In every state the queue actions can reach from the initial one,
    [getQueueStats] splits the queue three ways,
    [total = pending + retrying + failed], the actions returned by
    [getPendingActions] are the pending and the retrying ones, and
    [getFailedActions] returns the failed ones. *)
Theorem getQueueStats_partition ops :
  let s := run_queue ops initialState in
  let st := getQueueStats s in
  qs_total st = qs_pending st + qs_retrying st + qs_failed st ∧
  Z.of_nat (length (getPendingActions s)) = qs_pending st + qs_retrying st ∧
  Z.of_nat (length (getFailedActions s)) = qs_failed st.
Proof.
  intros s st.
  assert (retries_nonneg s) as Hs by (apply run_queue_nonneg; constructor).
  pose proof (length_three_way (queue s) Hs) as H3.
  pose proof (length_two_way (queue s)) as H2.
  unfold st, getQueueStats, getPendingActions, getFailedActions.
  cbv zeta in *. simpl qs_total. simpl qs_pending. simpl qs_failed.
  simpl qs_retrying. lia.
Qed.

(** ** Removing and retrying *)

Lemma filter_all_actions (P : SyncAction → Prop) `{!∀ x, Decision (P x)} q :
  Forall P q → filter P q = q.
Proof.
  induction 1 as [|a q Ha Hq IH]; [done|]. by rewrite filter_cons_True, IH.
Qed.

(** X10: [removeFromQueue] leaves no action with the given id, keeps every
    other action in its place in the order, and a second call changes
    nothing. *)
Theorem removeFromQueue_removes_id actionId s :
  let s' := removeFromQueue actionId s in
  (actionId ∉ a_id <$> queue s') ∧
  queue s' `sublist_of` queue s ∧
  (∀ a, a ∈ queue s → a_id a ≠ actionId → a ∈ queue s') ∧
  removeFromQueue actionId s' = s'.
Proof.
  intros s'. split; [|split; [|split]].
  - intros (a & Hid & Hin)%list_elem_of_fmap.
    apply list_elem_of_filter in Hin as [Hne _]. by apply Hne.
  - apply sublist_filter.
  - intros a Hin Hne. by apply list_elem_of_filter.
  - unfold s', removeFromQueue. simpl.
    rewrite list_filter_filter.
    assert (filter (λ a, a_id a ≠ actionId ∧ a_id a ≠ actionId) (queue s)
            = filter (λ a, a_id a ≠ actionId) (queue s)) as ->; [|done].
    apply list_filter_iff. tauto.
Qed.

(** X11: Removing the id that [addToQueue] has just returned gives back the
    state as it was, when no queued action carried that id and
    [pending_actions] showed the queue length. *)
Theorem enqueue_then_remove newId now actionData s :
  newId ∉ a_id <$> queue s →
  pending_mirrors_queue s →
  removeFromQueue (fst (addToQueue newId now actionData s))
                  (snd (addToQueue newId now actionData s)) = s.
Proof.
  intros Hfresh Hp. unfold removeFromQueue, addToQueue. simpl.
  rewrite list.filter_app, filter_cons_False, filter_nil, app_nil_r by (simpl; tauto).
  rewrite filter_all_actions.
  - unfold pending_mirrors_queue in Hp. destruct s as [[] ?]; simpl in *.
    unfold with_status, with_queue, set_pending. simpl. by rewrite <- Hp.
  - apply list.Forall_forall. intros a Hin Heq. apply Hfresh.
    apply list_elem_of_fmap. eauto.
Qed.

Lemma enqueue_then_remove_witness :
  let d := {| ad_type := CREATE; ad_table := "todos";
              ad_data := {| data_id := None; data_fields := "title: Buy milk" |};
              ad_retries := None |} in
  let s := snd (addToQueue "a1" 1 d initialState) in
  removeFromQueue (fst (addToQueue "a2" 2 d s)) (snd (addToQueue "a2" 2 d s)) = s.
Proof.
  intros d s. apply enqueue_then_remove.
  - simpl. rewrite list_elem_of_singleton. discriminate.
  - reflexivity.
Defined.

(** X12: [incrementRetries] only counts: the queue keeps its length and the
    status, and at every position the action keeps its id, type, table,
    payload and timestamp, while its retry count goes up by one if the id
    matches and stays as it is otherwise; no action leaves the queue,
    whatever its count. *)
Theorem incrementRetries_only_counts actionId s :
  let s' := incrementRetries actionId s in
  length (queue s') = length (queue s) ∧
  status s' = status s ∧
  ∀ k a, queue s !! k = Some a →
    ∃ a', queue s' !! k = Some a' ∧
          a_id a' = a_id a ∧ a_type a' = a_type a ∧ a_table a' = a_table a ∧
          a_data a' = a_data a ∧ a_timestamp a' = a_timestamp a ∧
          retries_or_0 a' =
            retries_or_0 a + (if decide (a_id a = actionId) then 1 else 0).
Proof.
  intros s'. split; [|split; [done|]].
  - unfold s', incrementRetries. simpl. apply length_map.
  - intros k a Hk. unfold s', incrementRetries. simpl.
    change (map ?f ?l) with (f <$> l). rewrite list_lookup_fmap, Hk. simpl.
    eexists. split; [done|].
    destruct (decide (a_id a = actionId)); simpl; repeat split; try done.
    lia.
Qed.

End SyncStoreMore.

(* ===================================================================== *)
(** * Properties of the network service *)
(* ===================================================================== *)

Module NetworkServiceProps.
Import NetworkService.

Lemma calculateQuality_offline s :
  calculateQuality s = offline ↔ default false (ni_isConnected s) = false.
Proof.
  unfold calculateQuality.
  destruct (default false (ni_isConnected s)); simpl; [|done].
  split; [|done].
  repeat first [ case_decide | case_match | case_bool_decide ]; try done.
Qed.

(** X13: Whatever NetInfo reports, the state [updateState] derives from it is
    consistent: the service is connected exactly when NetInfo said
    [isConnected: true] ([null] counts as not connected), the quality is
    ['offline'] exactly when it is not connected, [hasInternetAccess]
    holds exactly when NetInfo said [isInternetReachable: true], and
    [isOptimalForSync] requires internet access and a quality other than
    ['poor']. *)
Theorem updateState_is_consistent now s svc :
  let svc' := updateState now s svc in
  (isConnected (currentState svc') = true ↔ ni_isConnected s = Some true) ∧
  (getConnectionQuality svc' = offline ↔ isConnected (currentState svc') = false) ∧
  (hasInternetAccess svc' = true ↔ ni_isInternetReachable s = Some true) ∧
  (isOptimalForSync svc' = true →
   hasInternetAccess svc' = true ∧ getConnectionQuality svc' ≠ poor).
Proof.
  intros svc'. split; [|split; [|split]].
  - simpl. by destruct (ni_isConnected s) as [[]|].
  - apply calculateQuality_offline.
  - unfold hasInternetAccess. simpl. apply bool_decide_eq_true.
  - unfold isOptimalForSync. intros Hopt.
    apply andb_true_iff in Hopt as [Hopt _].
    apply andb_true_iff in Hopt as [Hnet Hq].
    split; [done|]. by apply bool_decide_eq_true in Hq.
Qed.

(** X14: [getRecommendations] never returns an empty list and never repeats a
    text; without a connection it returns the no-connection text alone,
    and with one it never returns that text. *)
Theorem getRecommendations_nonempty svc :
  getRecommendations svc ≠ [] ∧
  NoDup (getRecommendations svc) ∧
  (isConnected (currentState svc) = false → getRecommendations svc = [NoConnection]) ∧
  (isConnected (currentState svc) = true → NoConnection ∉ getRecommendations svc).
Proof.
  unfold getRecommendations.
  destruct (isConnected (currentState svc)); simpl.
  - destruct (decide (quality (currentState svc) = poor));
      destruct (isMetered_ svc && bool_decide (type (currentState svc) = cellular));
      destruct (bool_decide (type (currentState svc) = wifi)
                && bool_decide (quality (currentState svc) = excellent));
      simpl; (split; [done|]);
      (split;
        [repeat (apply NoDup_cons_2;
                 [rewrite ?not_elem_of_cons; repeat split; try discriminate;
                  apply not_elem_of_nil|]);
         apply NoDup_nil_2
        |split; [done|intros _];
         rewrite ?not_elem_of_cons; repeat split; try discriminate;
         apply not_elem_of_nil]).
  - split; [done|]. split; [|by split].
    apply NoDup_singleton.
Qed.

Lemma run_events_counts es : ∀ svc,
  let svc' := run_events es svc in
  reconnections (stats svc')
    = reconnections (stats svc) + reconnects (isConnected (currentState svc)) es ∧
  uptime (stats svc') + downtime (stats svc')
    = uptime (stats svc) + downtime (stats svc) + 1000 * seconds es ∧
  (0 ≤ uptime (stats svc) → 0 ≤ uptime (stats svc')) ∧
  (0 ≤ downtime (stats svc) → 0 ≤ downtime (stats svc')).
Proof.
  induction es as [|e es IH]; intros svc; simpl.
  - repeat split; try done; lia.
  - destruct (IH (apply_event svc e)) as (Hr & Hu & Hu0 & Hd0). cbv zeta.
    unfold run_events in *.
    destruct e as [now s|]; simpl in *.
    + unfold updateConnectionStats in *.
      destruct (isConnected (currentState svc)),
               (default false (ni_isConnected s)); simpl in *;
        repeat split; try done; lia.
    + destruct (isConnected (currentState svc)); simpl in *;
        repeat split; try lia.
Qed.

Lemma reconnects_nonneg es : ∀ c, 0 ≤ reconnects c es.
Proof.
  induction es as [|[now s|] es IH]; intros c; simpl; [done| |done].
  specialize (IH (default false (ni_isConnected s))).
  destruct (negb c && _); lia.
Qed.

Lemma run_events_marks es : ∀ svc,
  (0 ≤ reconnections (stats svc)) →
  (is_Some (lastConnectedAt (stats svc)) ↔ 0 < reconnections (stats svc)) →
  (isConnected (currentState svc) = true → 0 < reconnections (stats svc)) →
  (is_Some (lastDisconnectedAt (stats svc)) → 0 < reconnections (stats svc)) →
  let svc' := run_events es svc in
  (is_Some (lastConnectedAt (stats svc')) ↔ 0 < reconnections (stats svc')) ∧
  (isConnected (currentState svc') = true → 0 < reconnections (stats svc')) ∧
  (is_Some (lastDisconnectedAt (stats svc')) → 0 < reconnections (stats svc')).
Proof.
  induction es as [|e es IH]; intros svc H0 Hc Hi Hd; [done|].
  simpl. destruct e as [now s|].
  - apply IH; simpl; unfold updateConnectionStats;
      destruct (isConnected (currentState svc)) eqn:Hcon,
               (default false (ni_isConnected s)) eqn:Hs; simpl;
      try done; try lia; try tauto; try (intros _; lia).
    all: try (split; [intros _; lia|by eexists]).
    all: try (intros _; by apply Hi).
    all: try (intros _; done).
  - apply IH; simpl;
      destruct (isConnected (currentState svc)) eqn:Hcon; simpl; done.
Qed.

(** X15: Over every sequence of NetInfo reports and interval ticks since the
    service was created: [reconnections] is the number of reports that
    turned a disconnected service connected, [uptime + downtime] is 1000
    per tick and neither is negative, [lastConnectedAt] is set exactly
    when there was a reconnection, and the service is connected, or
    [lastDisconnectedAt] is set, only after one. *)
Theorem stats_follow_reports es :
  let svc := run_events es initial in
  reconnections (stats svc) = reconnects false es ∧
  uptime (stats svc) + downtime (stats svc) = 1000 * seconds es ∧
  0 ≤ uptime (stats svc) ∧ 0 ≤ downtime (stats svc) ∧
  (is_Some (lastConnectedAt (stats svc)) ↔ 0 < reconnections (stats svc)) ∧
  (isConnected (currentState svc) = true → 0 < reconnections (stats svc)) ∧
  (is_Some (lastDisconnectedAt (stats svc)) → 0 < reconnections (stats svc)).
Proof.
  intros svc.
  destruct (run_events_counts es initial) as (Hr & Hu & Hu0 & Hd0).
  destruct (run_events_marks es initial) as (Hc & Hi & Hd); simpl; try done.
  all: try (split; [by intros [? ?]|lia]).
  all: try (by intros [? ?]).
  fold svc in Hr, Hu, Hu0, Hd0, Hc, Hi, Hd. simpl in *.
  repeat split; try tauto; try lia; try (apply Hu0; lia); try (apply Hd0; lia).
Qed.

End NetworkServiceProps.

(* ===================================================================== *)
(** * Further properties of the sync service *)
(* ===================================================================== *)

Module SyncServiceMore.
Import Entities SyncService SyncTrace SyncServiceProps.

Section More.
Context `{Platform}.

Ltac run := unfold mbind, M_bind, mret, M_ret, try_catch, gets, modify; simpl.

(** ** The persisted texts *)

Lemma getAppConfig_run w : getAppConfig w = (Ok (stored_config w), w).
Proof.
  unfold getAppConfig, stored_config, getString, JSON_parse_config_or_throw. run.
  destruct (storage w !! "app_config") as [text|]; [|done].
  destruct (decide (text = EmptyString)); [done|].
  by destruct (JSON_parse_config text).
Qed.

(** X16: What [setSyncQueue] writes is what [getSyncQueue] reads back;
    [removeFromSyncQueue] persists the queue without the actions of the
    given id, in their order, and a second call changes nothing more;
    removing a fresh id right after [addToSyncQueue] stored it gives back
    the queue as it was. *)
Theorem queue_storage_round_trip w :
  JSON_queue_faithful →
  (∀ q, getSyncQueue (snd (setSyncQueue q w)) = (Ok q, snd (setSyncQueue q w))) ∧
  (∀ i, let w1 := snd (removeFromSyncQueue i w) in
        stored_queue w1 = filter (λ a, a_id a ≠ i) (stored_queue w) ∧
        stored_queue (snd (removeFromSyncQueue i w1)) = stored_queue w1) ∧
  (∀ action, a_id action ∉ a_id <$> stored_queue w →
     stored_queue (snd (removeFromSyncQueue (a_id action)
                          (snd (SyncStorageService_addToSyncQueue action w))))
     = stored_queue w).
Proof.
  intros Hj. split; [|split].
  - intros q. rewrite getSyncQueue_run, setSyncQueue_run. simpl.
    by rewrite (stored_queue_set q w Hj).
  - intros i w1.
    assert (stored_queue w1 = filter (λ a, a_id a ≠ i) (stored_queue w)) as H1.
    { unfold w1. rewrite removeFromSyncQueue_run. simpl.
      apply (stored_queue_set _ w Hj). }
    split; [done|].
    rewrite removeFromSyncQueue_run. simpl.
    rewrite (stored_queue_set _ w1 Hj), H1, list_filter_filter.
    apply list_filter_iff. tauto.
  - intros action Hfresh.
    rewrite SyncStorageService_addToSyncQueue_run. cbn [snd].
    rewrite removeFromSyncQueue_run. cbn [snd].
    rewrite (stored_queue_set _ _ Hj).
    rewrite (stored_queue_set _ w Hj).
    rewrite list.filter_app, filter_cons_False, filter_nil, app_nil_r
      by (simpl; tauto).
    induction (stored_queue w) as [|a q IH]; [done|].
    rewrite fmap_cons in Hfresh. apply not_elem_of_cons in Hfresh as [Hne Hq].
    rewrite filter_cons_True by (simpl; congruence). by rewrite IH.
Qed.

(** X17: [getAppConfig] never throws: it gives [{ lastSyncTime: null }] when
    the ['app_config'] text is absent, empty or does not parse, and after
    [setAppConfig c] it reads [c] back. *)
Theorem config_storage_round_trip w :
  (∃ c, getAppConfig w = (Ok c, w)) ∧
  (storage w !! "app_config" = None ∨
   storage w !! "app_config" = Some EmptyString ∨
   (∃ text, storage w !! "app_config" = Some text ∧ JSON_parse_config text = None) →
   getAppConfig w = (Ok defaultConfig, w)) ∧
  (JSON_config_faithful → ∀ c,
     getAppConfig (snd (setAppConfig c w)) = (Ok c, snd (setAppConfig c w))).
Proof.
  split; [|split].
  - rewrite getAppConfig_run. eauto.
  - intros Hbad. rewrite getAppConfig_run. unfold stored_config.
    destruct Hbad as [-> | [-> | (text & -> & Hp)]]; [done|done|].
    destruct (decide _); [done|]. by rewrite Hp.
  - intros Hj c. rewrite getAppConfig_run. f_equal. f_equal.
    unfold stored_config, setAppConfig, set. simpl.
    rewrite lookup_insert_eq. destruct (Hj c) as [Hne Hp].
    destruct (decide _); [done|]. by rewrite Hp.
Qed.

(** ** The offline guard *)

(** X18: Without internet access ([isInternetReachable] is not [true]) a call
    that is not stopped by the busy check returns [false], writes one
    line to the console and changes nothing else: no request, no storage
    write, [isSyncing] as it was.  This holds for [forcSync] too. *)
Theorem offline_call_does_nothing options w :
  isSyncing w && negb (default false (forceSync options)) = false →
  isInternetReachable (network w) ≠ Some true →
  syncPendingChanges options w
    = (Ok false, set_console (console w ++ [LogNoInternet]) w) ∧
  forcSync w = (Ok false, set_console (console w ++ [LogNoInternet]) w).
Proof.
  intros Hg Hn.
  assert (bool_decide (isInternetReachable (network w) = Some true) = false) as Hb
    by by apply bool_decide_eq_false.
  split.
  - unfold syncPendingChanges, hasInternetAccess, console_log. run.
    by rewrite Hg, Hb.
  - unfold forcSync, syncPendingChanges, hasInternetAccess, console_log. run.
    by rewrite andb_false_r, Hb.
Qed.

(** ** A refused intent *)

Lemma processAction_storage action w :
  storage (snd (processAction action w)) = storage w.
Proof.
  rewrite processAction_run. by destruct (fetch _ (remote w)) as [[ok|] r].
Qed.

Lemma processAction_stored_queue action w :
  stored_queue (snd (processAction action w)) = stored_queue w.
Proof. unfold stored_queue. by rewrite processAction_storage. Qed.

(** X19: When the dispatch of an intent is not accepted, the loop body looks
    at the stored retry count plus one: below 3 it leaves the storage as
    it is (the incremented count is not written); at 3 or more it removes
    the intents of that id from the persisted queue and logs exactly one
    warning, which shows the incremented count. *)
Theorem refused_intent_outcome action w :
  JSON_queue_faithful →
  fst (processAction action w) = Ok false →
  let w1 := snd (processAction action w) in
  let w' := snd (processSyncQueue_entry action w) in
  (retries_or_0 action + 1 < 3 → w' = w1 ∧ storage w' = storage w) ∧
  (retries_or_0 action + 1 >= 3 →
     stored_queue w' = filter (λ a, a_id a ≠ a_id action) (stored_queue w) ∧
     console w' = console w1 ++
       [WarnActionRemoved (set_retries (retries_or_0 action + 1) action)]).
Proof.
  intros Hj Hres w1 w'. unfold w'. rewrite processSyncQueue_entry_run.
  cbv zeta. rewrite Hres. fold w1. split.
  - intros Hlt. rewrite bool_decide_eq_false_2 by lia. cbn [snd].
    split; [done|]. apply processAction_storage.
  - intros Hge. rewrite bool_decide_eq_true_2 by lia. cbn [snd].
    rewrite removeFromSyncQueue_run. cbn [snd]. split; [|done].
    change (stored_queue (set_console ?c ?w0)) with (stored_queue w0).
    rewrite (stored_queue_set _ w1 Hj). unfold w1.
    by rewrite processAction_stored_queue.
Qed.

(** ** What a pass leaves in the queue *)

Lemma entry_stored_queue action w :
  JSON_queue_faithful →
  stored_queue (snd (processSyncQueue_entry action w)) = stored_queue w ∨
  stored_queue (snd (processSyncQueue_entry action w))
    = filter (λ a, a_id a ≠ a_id action) (stored_queue w).
Proof.
  intros Hj. rewrite processSyncQueue_entry_run. cbv zeta.
  assert (∀ w0, stored_queue (snd (removeFromSyncQueue (a_id action)
                                    (snd (processAction action w0))))
                = filter (λ a, a_id a ≠ a_id action) (stored_queue w0)) as Hrm.
  { intros w0. rewrite removeFromSyncQueue_run. cbn [snd].
    by rewrite (stored_queue_set _ _ Hj), processAction_stored_queue. }
  destruct (fst (processAction action w)) as [[]|].
  - right. apply Hrm.
  - destruct (bool_decide _); cbn [snd].
    + right. change (stored_queue (set_console ?c ?w0)) with (stored_queue w0).
      apply Hrm.
    + left. apply processAction_stored_queue.
  - destruct (bool_decide _); cbn [snd].
    + right. change (stored_queue (set_console ?c ?w0)) with (stored_queue w0).
      apply Hrm.
    + left. apply processAction_stored_queue.
Qed.

Lemma accepted_entry_stored_queue action w :
  JSON_queue_faithful → always_accepts →
  stored_queue (snd (processSyncQueue_entry action w))
    = filter (λ a, a_id a ≠ a_id action) (stored_queue w).
Proof.
  intros Hj Ha. rewrite processSyncQueue_entry_run. cbv zeta.
  assert (fst (processAction action w) = Ok true) as ->.
  { rewrite processAction_run. specialize (Ha (request_of action) (remote w)).
    destruct (fetch _ (remote w)) as [res r]. simpl in Ha. by subst res. }
  rewrite removeFromSyncQueue_run. cbn [snd].
  by rewrite (stored_queue_set _ _ Hj), processAction_stored_queue.
Qed.

(** X20: One run of [processSyncQueue] never adds an intent to the persisted
    queue and never reorders it: what is stored afterwards is a sub-list
    of what was stored before.  When the remote accepts every request the
    persisted queue is empty afterwards. *)
Theorem pass_only_shrinks_queue w :
  JSON_queue_faithful →
  stored_queue (snd (processSyncQueue w)) `sublist_of` stored_queue w ∧
  (always_accepts → stored_queue (snd (processSyncQueue w)) = []).
Proof.
  intros Hj. rewrite processSyncQueue_run. cbn [snd]. split.
  - generalize (stored_queue w) at 1 as q. intros q. revert w.
    induction q as [|a q IH]; intros w; [done|]. simpl.
    etrans; [apply IH|].
    destruct (entry_stored_queue a w Hj) as [-> | ->]; [done|apply sublist_filter].
  - intros Ha.
    assert (∀ q w0, stored_queue (foldl (λ w a, snd (processSyncQueue_entry a w)) w0 q)
                    = filter (λ a, a_id a ∉ a_id <$> q) (stored_queue w0)) as Hfold.
    { intros q. induction q as [|a q IH]; intros w0; simpl.
      - induction (stored_queue w0) as [|x l IHl]; [done|].
        rewrite filter_cons_True by (simpl; apply not_elem_of_nil). by f_equal.
      - rewrite IH, (accepted_entry_stored_queue a w0 Hj Ha), list_filter_filter.
        apply list_filter_iff. intros x. simpl. rewrite not_elem_of_cons. tauto. }
    rewrite Hfold.
    assert (∀ l q : list SyncAction, l ⊆ q →
              filter (λ a, a_id a ∉ a_id <$> q) l = []) as Hnil.
    { intros l q. induction l as [|x l IHl]; intros Hsub; [done|].
      rewrite filter_cons_False.
      - apply IHl. intros y Hy. apply Hsub. by right.
      - intros Hx. apply Hx, list_elem_of_fmap_2, Hsub. by left. }
    by apply Hnil.
Qed.

(** ** Components the queue pass and the upload step leave alone *)

Lemma frame_console_log {B} (f : World → B) e :
  ignores_queue_io f → keeps f (console_log e).
Proof. intros (_ & _ & Hc). apply keeps_modify. intros w. apply Hc. Qed.

Lemma frame_do_fetch {B} (f : World → B) req :
  ignores_queue_io f → keeps f (do_fetch req).
Proof.
  intros (_ & Hr & _) w. unfold do_fetch.
  destruct (fetch req (remote w)) as [[ok|] r]; simpl; apply Hr.
Qed.

Lemma frame_processSyncQueue_entry {B} (f : World → B) action :
  ignores_queue_io f → keeps f (processSyncQueue_entry action).
Proof.
  intros (Hs & Hr & Hc) w. rewrite processSyncQueue_entry_run. cbv zeta.
  assert (f (snd (processAction action w)) = f w) as Hp.
  { rewrite processAction_run.
    destruct (fetch _ (remote w)) as [[ok|] r]; simpl; by rewrite ?Hc, Hr. }
  assert (∀ w0, f (snd (removeFromSyncQueue (a_id action) w0)) = f w0) as Hrm.
  { intros w0. rewrite removeFromSyncQueue_run. apply Hs. }
  destruct (fst (processAction action w)) as [[]|];
    try destruct (bool_decide _); cbn [snd]; by rewrite ?Hc, ?Hrm.
Qed.

Lemma frame_processSyncQueue {B} (f : World → B) :
  ignores_queue_io f → keeps f processSyncQueue.
Proof.
  intros Hf. unfold processSyncQueue.
  apply keeps_bind; [apply keeps_getSyncQueue|].
  intros q. apply keeps_for_of. intros a. by apply frame_processSyncQueue_entry.
Qed.

Lemma frame_markAsSynced {B} (f : World → B) table i :
  ignores_queue_io f → ignores_db f → keeps f (markAsSynced table i).
Proof.
  intros Hf Hd. unfold markAsSynced.
  apply keeps_bind; [apply keeps_require_db|]. intros d.
  apply keeps_bind; [|intros _; by apply frame_console_log].
  apply keeps_modify. intros w. apply Hd.
Qed.

Lemma frame_uploadUnsyncedData {B} (f : World → B) :
  ignores_queue_io f → ignores_db f → keeps f uploadUnsyncedData.
Proof.
  intros Hf Hd. unfold uploadUnsyncedData, getUnsyncedUsers, getUnsyncedTodos,
    uploadUnsyncedData_user, uploadUnsyncedData_todo, uploadUser, uploadTodo.
  apply keeps_try_catch; [|intros e; by apply frame_console_log].
  repeat first
    [ apply keeps_ret
    | apply keeps_require_db
    | by apply frame_console_log
    | by apply frame_do_fetch
    | by apply frame_markAsSynced
    | apply keeps_for_of; intros ?
    | apply keeps_try_catch; [|intros ?]
    | apply keeps_bind; [|intros ?]
    | match goal with |- keeps _ (if ?b then _ else _) => destruct b end ].
Qed.

Lemma ignores_queue_io_config :
  ignores_queue_io (λ w, storage w !! "app_config").
Proof. split; [|done]. intros text w. simpl. by rewrite lookup_insert_ne. Qed.

Lemma ignores_queue_io_clock : ignores_queue_io clock.
Proof. done. Qed.

Lemma ignores_queue_io_db : ignores_queue_io db.
Proof. done. Qed.

(** ** Marking rows *)

Section Marking.
Variables (T : Type) (rid : T → string) (rsynced : T → bool)
          (mark : string → T → T).
Hypothesis mark_other : ∀ i r, rid r ≠ i → mark i r = r.
Hypothesis mark_same : ∀ i r, rid r = i → rsynced (mark i r) = true.
Hypothesis mark_id : ∀ i r, rid (mark i r) = rid r.
Hypothesis mark_keeps : ∀ i r, rsynced r = true → rsynced (mark i r) = true.
Hypothesis mark_twice : ∀ i r, mark i (mark (rid r) r) = mark (rid r) r.

Lemma marks_more (ids : list string) (rows0 rows : list T) :
  Forall2 (λ r r', r' = r ∨ r' = mark (rid r) r) rows0 rows →
  Forall2 (λ r r', r' = r ∨ r' = mark (rid r) r) rows0
          (foldl (λ rows i, mark i <$> rows) rows ids).
Proof.
  revert rows. induction ids as [|i ids IH]; intros rows Hrows; [done|].
  simpl. apply IH. apply Forall2_fmap_r.
  eapply list.Forall2_impl; [exact Hrows|]. intros r r' [-> | ->]; simpl.
  - destruct (decide (rid r = i)) as [<-|Hne]; [by right|].
    left. by apply mark_other.
  - right. apply mark_twice.
Qed.

Lemma marks_all (ids : list string) (rows : list T) :
  Forall (λ r, rsynced r = true ∨ rid r ∈ ids) rows →
  Forall (λ r, rsynced r = true) (foldl (λ rows i, mark i <$> rows) rows ids).
Proof.
  revert rows. induction ids as [|i ids IH]; intros rows Hrows; simpl.
  - eapply Forall_impl; [|exact Hrows]. intros r [Hr | Hr]; [done|].
    by apply elem_of_nil in Hr.
  - apply IH. apply Forall_fmap.
    eapply Forall_impl; [|exact Hrows]. intros r [Hr | Hr]; simpl.
    + left. by apply mark_keeps.
    + destruct (decide (rid r = i)) as [Heq|Hne].
      * left. by apply mark_same.
      * right. rewrite mark_id. apply elem_of_cons in Hr as [Hr | Hr]; [done|done].
Qed.

Lemma unsynced_ids_cover (rows : list T) :
  Forall (λ r, rsynced r = true ∨
               rid r ∈ rid <$> filter (λ r, rsynced r = false) rows) rows.
Proof.
  apply list.Forall_forall. intros r Hr.
  destruct (rsynced r) eqn:Hs; [by left|right].
  apply list_elem_of_fmap_2, list_elem_of_filter. by split.
Qed.

Lemma marks_none_left (rows : list T) :
  filter (λ r, rsynced r = false)
         (foldl (λ rows i, mark i <$> rows) rows
                (rid <$> filter (λ r, rsynced r = false) rows)) = [].
Proof.
  pose proof (marks_all _ _ (unsynced_ids_cover rows)) as Hall.
  induction Hall as [|r l Hr Hl IH]; [done|].
  rewrite filter_cons_False by (rewrite Hr; done). done.
Qed.

End Marking.

Lemma mark_user_other i u : user_id u ≠ i → mark_user i u = u.
Proof. intros Hne. unfold mark_user. by rewrite decide_False. Qed.

Lemma mark_todo_other i t : todo_id t ≠ i → mark_todo i t = t.
Proof. intros Hne. unfold mark_todo. by rewrite decide_False. Qed.

Lemma mark_user_same i u : user_id u = i → user_synced (mark_user i u) = true.
Proof. intros Heq. unfold mark_user. by rewrite decide_True. Qed.

Lemma mark_todo_same i t : todo_id t = i → todo_synced (mark_todo i t) = true.
Proof. intros Heq. unfold mark_todo. by rewrite decide_True. Qed.

Lemma mark_user_id i u : user_id (mark_user i u) = user_id u.
Proof. unfold mark_user. by destruct (decide _). Qed.

Lemma mark_todo_id i t : todo_id (mark_todo i t) = todo_id t.
Proof. unfold mark_todo. by destruct (decide _). Qed.

Lemma mark_user_keeps i u :
  user_synced u = true → user_synced (mark_user i u) = true.
Proof. unfold mark_user. by destruct (decide _). Qed.

Lemma mark_todo_keeps i t :
  todo_synced t = true → todo_synced (mark_todo i t) = true.
Proof. unfold mark_todo. by destruct (decide _). Qed.

Lemma mark_user_twice i u :
  mark_user i (mark_user (user_id u) u) = mark_user (user_id u) u.
Proof.
  unfold mark_user at 2 3. rewrite decide_True by done.
  unfold mark_user. by destruct (decide _).
Qed.

Lemma mark_todo_twice i t :
  mark_todo i (mark_todo (todo_id t) t) = mark_todo (todo_id t) t.
Proof.
  unfold mark_todo at 2 3. rewrite decide_True by done.
  unfold mark_todo. by destruct (decide _).
Qed.

(** ** The upload step *)

Lemma uploadUnsyncedData_user_run user d w :
  db w = Some d →
  ∃ w', uploadUnsyncedData_user user w = (Ok tt, w') ∧
        requests w' = requests w ++ [upload_user_of user] ∧
        db w' = Some (if accepted (fst (fetch (upload_user_of user) (remote w)))
                      then {| users := mark_user (user_id user) <$> users d;
                              todos := todos d |}
                      else d).
Proof.
  intros Hd. unfold uploadUnsyncedData_user, uploadUser, do_fetch, markAsSynced,
    require_db, console_log. run.
  fold (upload_user_of user).
  destruct (fetch (upload_user_of user) (remote w)) as [[[]|] r];
    simpl; rewrite ?Hd; simpl; by eexists.
Qed.

Lemma uploadUnsyncedData_todo_run todo d w :
  db w = Some d →
  ∃ w', uploadUnsyncedData_todo todo w = (Ok tt, w') ∧
        requests w' = requests w ++ [upload_of todo] ∧
        db w' = Some (if accepted (fst (fetch (upload_of todo) (remote w)))
                      then {| users := users d;
                              todos := mark_todo (todo_id todo) <$> todos d |}
                      else d).
Proof.
  intros Hd. unfold uploadUnsyncedData_todo, uploadTodo, do_fetch, markAsSynced,
    require_db, console_log. run.
  fold (upload_of todo).
  destruct (fetch (upload_of todo) (remote w)) as [[[]|] r];
    simpl; rewrite ?Hd; simpl; by eexists.
Qed.

Lemma always_accepted req r : always_accepts → accepted (fst (fetch req r)) = true.
Proof. intros Ha. by rewrite Ha. Qed.

Lemma upload_users_loop l : ∀ d w,
  db w = Some d →
  ∃ ids w',
    for_of l uploadUnsyncedData_user w = (Ok tt, w') ∧
    requests w' = requests w ++ (upload_user_of <$> l) ∧
    db w' = Some {| users := foldl (λ rows i, mark_user i <$> rows) (users d) ids;
                    todos := todos d |} ∧
    (always_accepts → ids = user_id <$> l).
Proof.
  induction l as [|u l IH]; intros d w Hd.
  - exists [], w. simpl. rewrite app_nil_r. by destruct d.
  - destruct (uploadUnsyncedData_user_run u d w Hd) as (w1 & Hrun & Hreq & Hdb).
    destruct (IH _ _ Hdb) as (ids & w' & Hl & Hreq' & Hdb' & Hacc').
    exists (if accepted (fst (fetch (upload_user_of u) (remote w)))
            then user_id u :: ids else ids), w'.
    split; [|split; [|split]].
    + simpl. run. by rewrite Hrun.
    + rewrite Hreq', Hreq, fmap_cons. by rewrite <- app_assoc.
    + rewrite Hdb'. by destruct (accepted _).
    + intros Ha. rewrite always_accepted by done. rewrite fmap_cons. f_equal. auto.
Qed.

Lemma upload_todos_loop l : ∀ d w,
  db w = Some d →
  ∃ ids w',
    for_of l uploadUnsyncedData_todo w = (Ok tt, w') ∧
    requests w' = requests w ++ (upload_of <$> l) ∧
    db w' = Some {| users := users d;
                    todos := foldl (λ rows i, mark_todo i <$> rows) (todos d) ids |} ∧
    (always_accepts → ids = todo_id <$> l).
Proof.
  induction l as [|t l IH]; intros d w Hd.
  - exists [], w. simpl. rewrite app_nil_r. by destruct d.
  - destruct (uploadUnsyncedData_todo_run t d w Hd) as (w1 & Hrun & Hreq & Hdb).
    destruct (IH _ _ Hdb) as (ids & w' & Hl & Hreq' & Hdb' & Hacc').
    exists (if accepted (fst (fetch (upload_of t) (remote w)))
            then todo_id t :: ids else ids), w'.
    split; [|split; [|split]].
    + simpl. run. by rewrite Hrun.
    + rewrite Hreq', Hreq, fmap_cons. by rewrite <- app_assoc.
    + rewrite Hdb'. by destruct (accepted _).
    + intros Ha. rewrite always_accepted by done. rewrite fmap_cons. f_equal. auto.
Qed.

Lemma uploadUnsyncedData_run d w :
  db w = Some d →
  ∃ uids tids w',
    uploadUnsyncedData w = (Ok tt, w') ∧
    requests w' = requests w ++ (upload_user_of <$> unsynced_users w)
                             ++ (upload_of <$> unsynced_todos w) ∧
    db w' = Some {| users := foldl (λ rows i, mark_user i <$> rows) (users d) uids;
                    todos := foldl (λ rows i, mark_todo i <$> rows) (todos d) tids |} ∧
    (always_accepts → uids = user_id <$> unsynced_users w ∧
                      tids = todo_id <$> unsynced_todos w).
Proof.
  intros Hd. unfold unsynced_users, unsynced_todos. rewrite Hd.
  destruct (upload_users_loop (filter (λ u, user_synced u = false) (users d)) d w Hd)
    as (uids & w1 & Hl1 & Hreq1 & Hdb1 & Hacc1).
  destruct (upload_todos_loop (filter (λ t, todo_synced t = false) (todos d)) _ w1 Hdb1)
    as (tids & w2 & Hl2 & Hreq2 & Hdb2 & Hacc2).
  exists uids, tids, w2. split; [|split; [|split]].
  - unfold uploadUnsyncedData, getUnsyncedUsers, getUnsyncedTodos, require_db. run.
    rewrite Hd. simpl. rewrite Hl1. rewrite Hdb1. simpl. by rewrite Hl2.
  - rewrite Hreq2, Hreq1. by rewrite <- app_assoc.
  - done.
  - intros Ha. split; auto.
Qed.

Lemma uploadUnsyncedData_closed w :
  db w = None →
  uploadUnsyncedData w
  = (Ok tt, set_console
              (console w ++ [ErrorUploadingUnsynced DatabaseNotInitialised]) w).
Proof.
  intros Hd. unfold uploadUnsyncedData, getUnsyncedUsers, require_db, console_log.
  run. by rewrite Hd.
Qed.

Lemma uploadUnsyncedData_ok w : fst (uploadUnsyncedData w) = Ok tt.
Proof.
  destruct (db w) as [d|] eqn:Hd.
  - destruct (uploadUnsyncedData_run d w Hd) as (? & ? & ? & -> & _). done.
  - by rewrite uploadUnsyncedData_closed.
Qed.

Lemma uploadUnsyncedData_requests w :
  requests (snd (uploadUnsyncedData w))
  = requests w ++ (upload_user_of <$> unsynced_users w)
               ++ (upload_of <$> unsynced_todos w).
Proof.
  destruct (db w) as [d|] eqn:Hd.
  - destruct (uploadUnsyncedData_run d w Hd) as (? & ? & ? & -> & Hreq & _). done.
  - rewrite uploadUnsyncedData_closed by done.
    unfold unsynced_users, unsynced_todos. rewrite Hd. simpl. by rewrite app_nil_r.
Qed.

(** X21: [uploadUnsyncedData] never throws.  Before the database is opened it
    sends nothing and writes one error to the console.  With the database
    open it sends one request for every row that has [synced = 0], the
    users first and then the todos, each in table order and whatever the
    answers are; afterwards every row is as it was or has [synced] set
    and nothing else changed, no row is added or dropped; and when the
    remote accepts every request no row is left with [synced = 0]. *)
Theorem upload_step_marks_rows w :
  fst (uploadUnsyncedData w) = Ok tt ∧
  let w' := snd (uploadUnsyncedData w) in
  match db w with
  | None =>
      w' = set_console
             (console w ++ [ErrorUploadingUnsynced DatabaseNotInitialised]) w
  | Some d =>
      requests w' = requests w ++ (upload_user_of <$> unsynced_users w)
                               ++ (upload_of <$> unsynced_todos w) ∧
      ∃ d', db w' = Some d' ∧
            Forall2 user_synced_more (users d) (users d') ∧
            Forall2 todo_synced_more (todos d) (todos d') ∧
            (always_accepts → unsynced_users w' = [] ∧ unsynced_todos w' = [])
  end.
Proof.
  destruct (db w) as [d|] eqn:Hd.
  - destruct (uploadUnsyncedData_run d w Hd)
      as (uids & tids & w' & Hrun & Hreq & Hdb & Hacc).
    rewrite Hrun. cbn [fst snd]. split; [done|]. split; [done|].
    eexists. split; [exact Hdb|]. cbn [users todos]. split; [|split].
    + apply (marks_more User user_id mark_user);
        [apply mark_user_other|apply mark_user_twice|].
      apply Forall2_same_length_lookup_2; [done|]. intros i x y Hx Hy. left. congruence.
    + apply (marks_more Todo todo_id mark_todo);
        [apply mark_todo_other|apply mark_todo_twice|].
      apply Forall2_same_length_lookup_2; [done|]. intros i x y Hx Hy. left. congruence.
    + intros Ha. destruct (Hacc Ha) as [-> ->].
      unfold unsynced_users at 1. unfold unsynced_todos at 1.
      rewrite Hdb. cbn [users todos].
      unfold unsynced_users, unsynced_todos. rewrite Hd. split.
      * apply (marks_none_left User user_id user_synced mark_user);
          [apply mark_user_same|apply mark_user_id|apply mark_user_keeps].
      * apply (marks_none_left Todo todo_id todo_synced mark_todo);
          [apply mark_todo_same|apply mark_todo_id|apply mark_todo_keeps].
  - by rewrite uploadUnsyncedData_closed.
Qed.

(** ** A whole pass *)

(** The world after the queue pass and the upload step of a pass. *)
Lemma pass_run w :
  let w3 := snd (uploadUnsyncedData
                   (snd (processSyncQueue
                           (set_console (console w ++ [LogSyncStart]) w)))) in
  syncPendingChanges_pass w =
  match stored_config w with
  | ConfigObject c =>
      let text := JSON_stringify_config
                    (ConfigObject {| lastSyncTime := Some (clock w);
                                     other_keys := other_keys c |}) in
      let w4 := set_storage (<["app_config" := text]> (storage w3)) w3 in
      (Ok true, set_console (console w4 ++ [LogSyncDone]) w4)
  | ConfigArray elements =>
      let text := JSON_stringify_config (ConfigArray elements) in
      let w4 := set_storage (<["app_config" := text]> (storage w3)) w3 in
      (Ok true, set_console (console w4 ++ [LogSyncDone]) w4)
  | ConfigPrimitive => (Throw TypeError, w3)
  end.
Proof.
  intros w3.
  set (w1 := set_console (console w ++ [LogSyncStart]) w) in *.
  set (w2 := snd (processSyncQueue w1)) in *.
  assert (storage w3 !! "app_config" = storage w !! "app_config") as Hcfg.
  { unfold w3.
    rewrite (frame_uploadUnsyncedData (λ w, storage w !! "app_config")
               ignores_queue_io_config); [|done].
    unfold w2.
    by rewrite (frame_processSyncQueue (λ w, storage w !! "app_config")
                  ignores_queue_io_config). }
  assert (clock w3 = clock w) as Hclock.
  { unfold w3. rewrite (frame_uploadUnsyncedData clock ignores_queue_io_clock); [|done].
    unfold w2. by rewrite (frame_processSyncQueue clock ignores_queue_io_clock). }
  assert (stored_config w3 = stored_config w) as Hsc
    by (unfold stored_config; by rewrite Hcfg).
  pose proof (uploadUnsyncedData_ok w2) as Hup.
  pose proof (processSyncQueue_run w1) as Hq.
  unfold syncPendingChanges_pass.
  unfold mbind at 1, M_bind at 1. unfold console_log at 1, modify at 1. fold w1.
  unfold mbind at 1, M_bind at 1. rewrite Hq.
  replace (foldl _ w1 (stored_queue w1)) with w2 by (unfold w2; by rewrite Hq).
  unfold mbind at 1, M_bind at 1.
  destruct (uploadUnsyncedData w2) as [res w3'] eqn:Hu.
  simpl in Hup. subst res. change w3' with w3.
  unfold mbind at 1, M_bind at 1. rewrite getAppConfig_run, Hsc.
  unfold mbind at 1, M_bind at 1. unfold Date_now, gets. rewrite Hclock.
  by destruct (stored_config w) as [c|elements|].
Qed.

Lemma started_pass_run options w :
  pass_starts options w →
  syncPendingChanges options w =
  let '(res, w1) := try_catch syncPendingChanges_pass on_sync_error
                      (set_isSyncing true w) in
  (res, set_isSyncing false w1).
Proof.
  intros [Hg Hn].
  unfold syncPendingChanges, hasInternetAccess, mbind, M_bind, gets, modify.
  simpl. rewrite Hg, Hn. simpl. unfold try_finally.
  change (try_catch syncPendingChanges_pass _ _)
    with (try_catch syncPendingChanges_pass on_sync_error (set_isSyncing true w)).
  by destruct (try_catch _ _ _) as [res w1].
Qed.

(** X22: A pass that starts on a store whose ['sync_queue'] key is absent,
    empty, unparseable or holds the text of an array of actions sends one
    request for every persisted intent, in queue order, then one for
    every user row and then one for every todo row that has [synced = 0],
    whatever the answers are and whether or not the pass then ends with
    an error on the config: an entity that has both a queued intent and
    an unsynced row is sent twice. *)
Theorem pass_request_trace options w :
  pass_starts options w →
  holds_queue_text w →
  requests (snd (syncPendingChanges options w))
  = requests w ++ (request_of <$> stored_queue w)
               ++ (upload_user_of <$> unsynced_users w)
               ++ (upload_of <$> unsynced_todos w).
Proof.
  intros Hs _. rewrite (started_pass_run _ _ Hs), guarded_pass_run, pass_run.
  set (w0 := set_isSyncing true w).
  set (w1 := set_console (console w0 ++ [LogSyncStart]) w0).
  assert (requests (snd (uploadUnsyncedData (snd (processSyncQueue w1))))
          = requests w ++ (request_of <$> stored_queue w)
               ++ (upload_user_of <$> unsynced_users w)
               ++ (upload_of <$> unsynced_todos w)) as Hreq.
  { rewrite uploadUnsyncedData_requests.
    assert (db (snd (processSyncQueue w1)) = db w) as Hdb
      by by rewrite (keeps_processSyncQueue db ignores_io_db).
    unfold unsynced_users, unsynced_todos. rewrite Hdb.
    rewrite processSyncQueue_run. cbn [snd]. rewrite foldl_entry_requests.
    by rewrite <- app_assoc. }
  cbv zeta. by destruct (stored_config w0).
Qed.

(** X23: The result of a pass that starts on a store whose ['sync_queue']
    key is absent, empty, unparseable or holds the text of an array of
    actions depends on the stored ['app_config'] alone, not on what the
    remote answered.  An object (or an absent, empty or unparseable text,
    which reads as the default object): the call returns [true], ends
    with the "done" line and stores the config with [lastSyncTime] set to
    the clock and the other keys kept.  An array: the call returns [true]
    and ends with the "done" line, but what it stores is the array printed
    again, with no [lastSyncTime].  [null] or a primitive: the assignment
    throws, the call returns [false], the stored config text stays as it
    was and the error is the last console line.  In every case
    [isSyncing] is [false] afterwards. *)
Theorem pass_result_and_lastSyncTime options w :
  pass_starts options w →
  holds_queue_text w →
  let w' := snd (syncPendingChanges options w) in
  isSyncing w' = false ∧
  match stored_config w with
  | ConfigObject c =>
      fst (syncPendingChanges options w) = Ok true ∧
      storage w' !! "app_config"
        = Some (JSON_stringify_config
                  (ConfigObject {| lastSyncTime := Some (clock w);
                                   other_keys := other_keys c |})) ∧
      list.last (console w') = Some LogSyncDone
  | ConfigArray elements =>
      fst (syncPendingChanges options w) = Ok true ∧
      storage w' !! "app_config"
        = Some (JSON_stringify_config (ConfigArray elements)) ∧
      list.last (console w') = Some LogSyncDone
  | ConfigPrimitive =>
      fst (syncPendingChanges options w) = Ok false ∧
      storage w' !! "app_config" = storage w !! "app_config" ∧
      list.last (console w') = Some (ErrorDuringSync TypeError)
  end.
Proof.
  intros Hs _. rewrite (started_pass_run _ _ Hs), guarded_pass_run, pass_run.
  set (w0 := set_isSyncing true w).
  set (w1 := set_console (console w0 ++ [LogSyncStart]) w0).
  set (w3 := snd (uploadUnsyncedData (snd (processSyncQueue w1)))).
  assert (storage w3 !! "app_config" = storage w !! "app_config") as Hcfg.
  { unfold w3.
    rewrite (frame_uploadUnsyncedData (λ w, storage w !! "app_config")
               ignores_queue_io_config); [|done].
    by rewrite (frame_processSyncQueue (λ w, storage w !! "app_config")
                  ignores_queue_io_config). }
  change (stored_config w0) with (stored_config w).
  change (clock w0) with (clock w).
  cbv zeta. destruct (stored_config w) as [c|elements|]; cbn [fst snd].
  - split; [done|]. split; [done|]. split.
    + simpl. by rewrite lookup_insert_eq.
    + simpl. apply last_snoc.
  - split; [done|]. split; [done|]. split.
    + simpl. by rewrite lookup_insert_eq.
    + simpl. apply last_snoc.
  - split; [done|]. split; [done|]. split.
    + simpl. exact Hcfg.
    + simpl. apply last_snoc.
Qed.

(** ** The two triggers *)

Lemma refused_call_quiet options w :
  (isSyncing w && negb (default false (forceSync options)) = true ∨
   isInternetReachable (network w) ≠ Some true) →
  set_console [] (snd (syncPendingChanges options w)) = set_console [] w.
Proof.
  intros Hg. unfold syncPendingChanges, hasInternetAccess, console_log. run.
  destruct (isSyncing w && negb (default false (forceSync options))); [done|].
  destruct Hg as [Hg | Hg]; [done|].
  by rewrite bool_decide_eq_false_2.
Qed.

(** X24: The interval callback and the connectivity callback never throw, and
    their own checks add nothing to those of [syncPendingChanges]: the
    world after the interval callback is the world after a plain
    [syncPendingChanges()] up to console output, and so is the world
    after the connectivity callback whenever the network state does not
    say "reachable but not connected". *)
Theorem triggers_only_skip_logging w :
  fst (on_interval_tick w) = Ok tt ∧
  set_console [] (snd (on_interval_tick w))
    = set_console [] (snd (syncPendingChanges noOptions w)) ∧
  fst (on_network_state (network w) w) = Ok tt ∧
  ((isInternetReachable (network w) = Some true → isConnected (network w) = true) →
   set_console [] (snd (on_network_state (network w) w))
     = set_console [] (snd (syncPendingChanges noOptions w))).
Proof.
  split; [|split; [|split]].
  - unfold on_interval_tick, hasInternetAccess, fire_and_forget. run.
    by destruct (_ && _).
  - unfold on_interval_tick, hasInternetAccess, fire_and_forget. run.
    destruct (bool_decide _) eqn:Hn, (isSyncing w) eqn:Hs; simpl; try done;
      symmetry; apply refused_call_quiet.
    + left. by rewrite Hs.
    + left. by rewrite Hs.
    + right. by apply bool_decide_eq_false in Hn.
  - unfold on_network_state, fire_and_forget. by destruct (_ && _).
  - intros Hc. unfold on_network_state, fire_and_forget.
    destruct (isInternetReachable (network w)) as [[]|] eqn:Hn.
    + rewrite Hc by done. done.
    + rewrite andb_false_r. simpl. symmetry. apply refused_call_quiet.
      right. by rewrite Hn.
    + rewrite andb_false_r. simpl. symmetry. apply refused_call_quiet.
      right. by rewrite Hn.
Qed.

End More.
End SyncServiceMore.

(* ===================================================================== *)
(** * Further runs against the scripted remotes *)
(* ===================================================================== *)

Module RunsMore.
Import Entities SyncService SyncTrace Scripted SyncServiceProps SyncServiceMore Runs.

Lemma scripted_config_faithful : @JSON_config_faithful platform.
Proof. intros c. split; [done|apply read_print]. Qed.

Lemma accepting_faithful : @JSON_queue_faithful accepting.
Proof. intros q. split; [done|apply read_print]. Qed.

Lemma accepting_always_accepts : @always_accepts accepting.
Proof. by intros req r. Qed.

Lemma queue_storage_round_trip_witness :
  let w := world (queue_text [create_milk]) [] empty_db in
  getSyncQueue (snd (setSyncQueue [update_milk] w))
    = (Ok [update_milk], snd (setSyncQueue [update_milk] w)) ∧
  stored_queue (snd (removeFromSyncQueue "a1" w)) = [] ∧
  stored_queue (snd (removeFromSyncQueue "a2"
                       (snd (SyncStorageService_addToSyncQueue update_milk w))))
    = [create_milk].
Proof.
  intros w.
  destruct (queue_storage_round_trip w scripted_faithful) as (Hset & Hrm & Hadd).
  assert (stored_queue w = [create_milk]) as Hq
    by (unfold w; by rewrite stored_queue_text).
  split; [apply Hset|split].
  - destruct (Hrm "a1") as [-> _]. by rewrite Hq.
  - rewrite <- Hq. apply (Hadd update_milk). rewrite Hq. simpl.
    intros Hin. apply list_elem_of_singleton in Hin. discriminate.
Defined.

Lemma config_storage_round_trip_witness :
  let w := world ∅ [] empty_db in
  let c := ConfigObject {| lastSyncTime := Some 1000; other_keys := EmptyString |} in
  getAppConfig w = (Ok defaultConfig, w) ∧
  getAppConfig (snd (setAppConfig c w)) = (Ok c, snd (setAppConfig c w)).
Proof.
  intros w c. destruct (config_storage_round_trip w) as (_ & Hdef & Hset).
  split; [apply Hdef; by left|apply Hset, scripted_config_faithful].
Defined.

Lemma offline_call_does_nothing_witness :
  let w := with_network offline (world (queue_text [create_milk]) [] empty_db) in
  syncPendingChanges noOptions w
    = (Ok false, set_console (console w ++ [LogNoInternet]) w) ∧
  forcSync w = (Ok false, set_console (console w ++ [LogNoInternet]) w).
Proof. intros w. by apply (offline_call_does_nothing noOptions w). Defined.

Lemma refused_intent_outcome_witness :
  let w := world (queue_text [create_milk; stale_milk]) [Response false] empty_db in
  storage (snd (processSyncQueue_entry create_milk w)) = storage w ∧
  stored_queue (snd (processSyncQueue_entry stale_milk w)) = [create_milk] ∧
  console (snd (processSyncQueue_entry stale_milk w))
    = [WarnActionRemoved (set_retries 3 stale_milk)].
Proof.
  intros w.
  assert (stored_queue w = [create_milk; stale_milk]) as Hq
    by (unfold w; by rewrite stored_queue_text).
  split.
  - destruct (refused_intent_outcome create_milk w scripted_faithful eq_refl)
      as [Hkeep _].
    apply Hkeep. reflexivity.
  - destruct (refused_intent_outcome stale_milk w scripted_faithful eq_refl)
      as [_ Hdrop].
    destruct Hdrop as [Hs Hc]; [done|]. split.
    + rewrite Hs, Hq. reflexivity.
    + rewrite Hc. reflexivity.
Defined.

Lemma pass_only_shrinks_queue_witness :
  let w := @world accepting (queue_text [create_milk; update_milk]) tt empty_db in
  stored_queue (snd (processSyncQueue w)) `sublist_of` [create_milk; update_milk] ∧
  stored_queue (snd (processSyncQueue w)) = [].
Proof.
  intros w.
  destruct (@pass_only_shrinks_queue accepting w accepting_faithful) as [Hsub Hall].
  split.
  - replace [create_milk; update_milk] with (stored_queue w); [done|].
    unfold w. by rewrite stored_queue_text.
  - apply Hall, accepting_always_accepts.
Defined.

Lemma upload_step_marks_rows_witness :
  let w := @world accepting ∅ tt {| users := [ana_row]; todos := [milk_row] |} in
  let w' := snd (uploadUnsyncedData w) in
  requests w' = [upload_user_of ana_row; upload_of milk_row] ∧
  unsynced_users w' = [] ∧ unsynced_todos w' = [] ∧
  uploadUnsyncedData (set_db None w)
    = (Ok tt, set_console [ErrorUploadingUnsynced DatabaseNotInitialised]
                (set_db None w)).
Proof.
  intros w w'.
  destruct (@upload_step_marks_rows accepting w) as [_ Hopen].
  destruct Hopen as (Hreq & d' & _ & _ & _ & Hall).
  destruct (Hall accepting_always_accepts) as [Hu Ht].
  destruct (@upload_step_marks_rows accepting (set_db None w)) as [Hok Hclosed].
  split; [exact Hreq|]. split; [exact Hu|]. split; [exact Ht|].
  destruct (uploadUnsyncedData (set_db None w)) as [res w0].
  simpl in Hok, Hclosed. by rewrite Hok, Hclosed.
Defined.

Lemma holds_printed_queue `{Platform} q r d :
  JSON_stringify_queue = print → holds_queue_text (world (queue_text q) r d).
Proof.
  intros Hs. right. right. exists q. rewrite Hs. apply lookup_singleton_eq.
Qed.

Lemma pass_request_trace_witness :
  let w := world (queue_text [create_milk]) [Response true; Response false]
                 {| users := []; todos := [milk_row] |} in
  requests (snd (syncPendingChanges noOptions w))
    = [request_of create_milk; upload_of milk_row].
Proof.
  intros w.
  rewrite (pass_request_trace noOptions w);
    [|by split|by apply holds_printed_queue].
  unfold w. by rewrite stored_queue_text.
Defined.

Lemma pass_result_and_lastSyncTime_witness :
  let w := world (queue_text [create_milk]) [Response false] empty_db in
  let w' := snd (syncPendingChanges noOptions w) in
  isSyncing w' = false ∧
  fst (syncPendingChanges noOptions w) = Ok true ∧
  storage w' !! "app_config"
    = Some (print (ConfigObject {| lastSyncTime := Some 1000;
                                   other_keys := EmptyString |})) ∧
  list.last (console w') = Some LogSyncDone.
Proof.
  intros w w'.
  exact (pass_result_and_lastSyncTime noOptions w (conj eq_refl eq_refl)
           (holds_printed_queue [create_milk] _ _ eq_refl)).
Defined.

(** A stored config that is an array: the pass reports success and
    stores the array again, without [lastSyncTime]. *)
Lemma array_config_keeps_no_lastSyncTime :
  let w := world {[ "app_config" := print (ConfigArray "1, 2") ]} [] empty_db in
  let w' := snd (syncPendingChanges noOptions w) in
  fst (syncPendingChanges noOptions w) = Ok true ∧
  storage w' !! "app_config" = Some (print (ConfigArray "1, 2")) ∧
  stored_config w' = ConfigArray "1, 2".
Proof. vm_compute. by repeat split. Qed.

End RunsMore.
